(** * app_lakebase/app/services/task_queue.py

    A shallow embedding of the background task queue of the Dash chat
    application: the [StreamingBuffer] text accumulator, the [SaveStatus]
    record, the module-level registries ([_generations], [_saves],
    [_history_results]), the thread pool [_executor], the submission
    functions with their [_run] closures, and the polling functions.

    Python objects are shared by reference.  Buffers and save statuses
    therefore live in two object stores and the registries, the closures
    and the callers hold addresses into these stores. *)

From Stdlib Require Import ZArith Ascii.
From Stdlib Require QArith_base.
From stdpp Require Import gmap strings list.

Local Open Scope Z_scope.
Local Open Scope nat_scope.

(** ** Python [str] operations used by the module *)

Module Str.

(** Truthiness of a [str]: every string but the empty one. *)
Definition truthy (s : string) : bool :=
  match s with
  | EmptyString => false
  | String _ _ => true
  end.

(** [sep.join(parts)] *)
Definition join (sep : string) (parts : list string) : string :=
  String.concat sep parts.

Fixpoint drop (n : nat) (s : string) : string :=
  match n, s with
  | O, _ => s
  | S _, EmptyString => EmptyString
  | S m, String _ r => drop m r
  end.

(** [s[start:]] for an [int] start: a negative start counts from the end,
    and both directions are clamped to the string. *)
Definition slice_from (s : string) (start : Z) : string :=
  let n := Z.of_nat (String.length s) in
  let lo := if (start <? 0)%Z then Z.max (n + start) 0 else Z.min start n in
  drop (Z.to_nat lo) s.

Definition space : ascii := Ascii.ascii_of_nat 32.

(** [s.split(" ")]: cuts at every single space, keeps empty pieces, and
    yields [[""]] on the empty string. *)
Fixpoint split_space (s : string) : list string :=
  match s with
  | EmptyString => [EmptyString]
  | String c r =>
      if Ascii.eqb c space then EmptyString :: split_space r
      else match split_space r with
           | w :: ws => String c w :: ws
           | [] => [String c EmptyString]
           end
  end.

End Str.

(** ** StreamingBuffer *)

Inductive TypingStage := thinking | generating | finishing.

Definition TypingStage_eqb (a b : TypingStage) : bool :=
  match a, b with
  | thinking, thinking | generating, generating | finishing, finishing => true
  | _, _ => false
  end.

Module StreamingBuffer.

(** The instance attributes set by [__init__].  [_lock] has no content of
    its own: every method body below is one critical section.
    [_stage_start_time] is a wall-clock reading that only drives the
    animation of [get_typing_display_text]; it is left out. *)
Record t := mk {
  _chunks : list string;
  _done : bool;
  _error : option string;
  _typing_stage : TypingStage
}.

Definition __init__ : t :=
  {| _chunks := []; _done := false; _error := None;
     _typing_stage := thinking |}.

(** The parameter is annotated [str]; on a [str] the [isinstance] test
    holds and the coercion branch is skipped. *)
Definition append (text_chunk : string) (self : t) : t :=
  if negb (Str.truthy text_chunk) then self
  else if Str.truthy text_chunk
       then {| _chunks := _chunks self ++ [text_chunk];
               _done := _done self; _error := _error self;
               _typing_stage := _typing_stage self |}
       else self.

Definition mark_done (self : t) : t :=
  {| _chunks := _chunks self; _done := true; _error := _error self;
     _typing_stage := _typing_stage self |}.

Definition mark_error (error_message : string) (self : t) : t :=
  {| _chunks := _chunks self; _done := true;
     _error := Some error_message;
     _typing_stage := _typing_stage self |}.

Definition read_all (self : t) : string := Str.join "" (_chunks self).

Definition read_since (cursor : Z) (self : t) : string :=
  let accumulated := Str.join "" (_chunks self) in
  Str.slice_from accumulated cursor.

Definition length (self : t) : nat :=
  String.length (Str.join "" (_chunks self)).

Definition is_done (self : t) : bool := _done self.

Definition error (self : t) : option string := _error self.

Definition set_typing_stage (stage : TypingStage) (self : t) : t :=
  if negb (TypingStage_eqb (_typing_stage self) stage)
  then {| _chunks := _chunks self; _done := _done self;
          _error := _error self; _typing_stage := stage |}
  else self.

Definition typing_stage (self : t) : TypingStage := _typing_stage self.

End StreamingBuffer.

(** ** SaveStatus *)

Record SaveStatus := mkSaveStatus {
  message_id : string;
  ok : bool;
  error : option string
}.

(** ** Callables handed to the queue

    An [Exception] is represented by its [str()] rendering, which is all
    the module ever reads of it.  A callable is invoked at most once by the
    job that owns it, so it is described by an identity, recorded in the
    call log when it is invoked, and by the outcome of that invocation. *)

Inductive Exception := Exc (message : string).

Definition str (e : Exception) : string :=
  match e with Exc m => m end.

Inductive outcome (A : Type) :=
| Returns (a : A)
| Raises (e : Exception).
Arguments Returns {A} a.
Arguments Raises {A} e.

Record callable (A : Type) := mkCallable {
  fn_id : nat;
  fn_outcome : outcome A
}.
Arguments mkCallable {A} fn_id fn_outcome.
Arguments fn_id {A} c.
Arguments fn_outcome {A} c.

(** A generator object: the chunks it yields, in order, and how the
    iteration ends (exhausted, or an exception raised from inside). *)
Record generator := mkGenerator {
  yields : list string;
  ending : option Exception
}.

(** [Dict[str, Any]] records of a history load. *)
Inductive pyvalue :=
| PyNone
| PyBool (b : bool)
| PyInt (z : Z)
| PyStr (s : string).

Definition row := gmap string pyvalue.

(** ** The registry *)

Definition addr := nat.

(** The [_run] closures, by the variables they capture. *)
Inductive job :=
| generation_run (message_id : string) (buffer : addr)
    (generate_fn : callable string) (simulate_stream : bool)
    (chunk_delay_seconds : QArith_base.Q)
| streaming_run (message_id : string) (buffer : addr)
    (stream_generator_fn : callable generator)
| save_run (message_id : string) (status : addr) (save_fn : callable unit)
| history_run (key : string) (load_fn : callable (list row)).

Record state := mkState {
  buffers : list StreamingBuffer.t;     (* every StreamingBuffer object   *)
  statuses : list SaveStatus;           (* every SaveStatus object        *)
  _generations : gmap string addr;
  _saves : gmap string addr;
  _history_results : gmap string (list row);
  _executor : list job;                 (* submitted, not yet run         *)
  calls : list nat                      (* callables invoked so far       *)
}.

Definition initial : state :=
  {| buffers := []; statuses := []; _generations := ∅; _saves := ∅;
     _history_results := ∅; _executor := []; calls := [] |}.

Definition set_buffers (v : list StreamingBuffer.t) (st : state) : state :=
  mkState v (statuses st) (_generations st) (_saves st)
          (_history_results st) (_executor st) (calls st).
Definition set_statuses (v : list SaveStatus) (st : state) : state :=
  mkState (buffers st) v (_generations st) (_saves st)
          (_history_results st) (_executor st) (calls st).
Definition set_generations (v : gmap string addr) (st : state) : state :=
  mkState (buffers st) (statuses st) v (_saves st)
          (_history_results st) (_executor st) (calls st).
Definition set_saves (v : gmap string addr) (st : state) : state :=
  mkState (buffers st) (statuses st) (_generations st) v
          (_history_results st) (_executor st) (calls st).
Definition set_history_results (v : gmap string (list row)) (st : state)
  : state :=
  mkState (buffers st) (statuses st) (_generations st) (_saves st)
          v (_executor st) (calls st).
Definition set_executor (v : list job) (st : state) : state :=
  mkState (buffers st) (statuses st) (_generations st) (_saves st)
          (_history_results st) v (calls st).
Definition set_calls (v : list nat) (st : state) : state :=
  mkState (buffers st) (statuses st) (_generations st) (_saves st)
          (_history_results st) (_executor st) v.

(** ** Computations over the registry that may raise *)

Definition M (A : Type) : Type := state -> outcome A * state.

Definition ret {A} (a : A) : M A := fun st => (Returns a, st).

Definition raise {A} (e : Exception) : M A := fun st => (Raises e, st).

Definition bind {A B} (c : M A) (k : A -> M B) : M B :=
  fun st =>
    match c st with
    | (Returns a, st') => k a st'
    | (Raises e, st') => (Raises e, st')
    end.

(** [try: body / except Exception as e: handler e] *)
Definition try_except {A} (body : M A) (handler : Exception -> M A) : M A :=
  fun st =>
    match body st with
    | (Returns a, st') => (Returns a, st')
    | (Raises e, st') => handler e st'
    end.

(** [try: body / finally: final] *)
Definition try_finally {A} (body : M A) (final : M unit) : M A :=
  fun st =>
    match body st with
    | (r, st') =>
        match final st' with
        | (Returns _, st'') => (r, st'')
        | (Raises e, st'') => (Raises e, st'')
        end
    end.

Declare Scope job_scope.
Delimit Scope job_scope with job.
Notation "x <- c ;; k" := (bind c (fun x => k))
  (at level 100, c at next level, k at level 200, right associativity)
  : job_scope.
Notation "c ;; k" := (bind c (fun _ => k))
  (at level 100, k at level 200, right associativity) : job_scope.
Notation "'try' b 'except' h" := (try_except b h)
  (at level 100, b at level 200, h at level 200) : job_scope.
Local Open Scope job_scope.

(** [for x in xs: body x] *)
Fixpoint for_each {A} (xs : list A) (body : A -> M unit) : M unit :=
  match xs with
  | [] => ret tt
  | x :: rest => body x ;; for_each rest body
  end.

(** [for chunk in g: body chunk] over a generator object. *)
Definition for_each_yield (g : generator) (body : string -> M unit) : M unit :=
  for_each (yields g) body ;;
  match ending g with
  | None => ret tt
  | Some e => raise e
  end.

(** Invoking a callable: it is logged, and returns or raises. *)
Definition call {A} (f : callable A) : M A :=
  fun st => (fn_outcome f, set_calls (calls st ++ [fn_id f]) st).

(** [time.sleep(seconds)] only passes time, and rejects a negative length. *)
Definition time_sleep (seconds : QArith_base.Q) : M unit :=
  if QArith_base.Qle_bool (QArith_base.Qmake 0 1) seconds then ret tt
  else raise (Exc "sleep length must be non-negative"%string).

(** ** Object stores *)

(** [StreamingBuffer()] *)
Definition new_buffer : M addr :=
  fun st =>
    (Returns (length (buffers st)),
     set_buffers (buffers st ++ [StreamingBuffer.__init__]) st).

(** [SaveStatus(message_id=message_id)] *)
Definition new_status (message_id : string) : M addr :=
  fun st =>
    (Returns (length (statuses st)),
     set_statuses (statuses st ++ [mkSaveStatus message_id false None]) st).

(** A mutating method call [buffer.method(...)]. *)
Definition on_buffer (buffer : addr)
    (method : StreamingBuffer.t -> StreamingBuffer.t) : M unit :=
  fun st => (Returns tt, set_buffers (alter method buffer (buffers st)) st).

(** [status.ok = True] *)
Definition status_set_ok (status : addr) : M unit :=
  fun st =>
    (Returns tt,
     set_statuses
       (alter (fun s => mkSaveStatus (message_id s) true (error s))
              status (statuses st)) st).

(** [status.error = text] *)
Definition status_set_error (status : addr) (text : string) : M unit :=
  fun st =>
    (Returns tt,
     set_statuses
       (alter (fun s => mkSaveStatus (message_id s) (ok s) (Some text))
              status (statuses st)) st).

(** [_executor.submit(_run)] *)
Definition executor_submit (_run : job) : M unit :=
  fun st => (Returns tt, set_executor (_executor st ++ [_run]) st).

(** ** Submission and polling functions

    The [logger] calls leave the state alone and are not modelled. *)

Definition submit_generation (message_id : string)
    (generate_fn : callable string) (simulate_stream : bool)
    (chunk_delay_seconds : QArith_base.Q) : M unit :=
  buffer <- new_buffer ;;
  (fun st => (Returns tt,
              set_generations (<[message_id := buffer]> (_generations st)) st)) ;;
  executor_submit
    (generation_run message_id buffer generate_fn simulate_stream
                    chunk_delay_seconds).

Definition generation_run_body (buffer : addr)
    (generate_fn : callable string) (simulate_stream : bool)
    (chunk_delay_seconds : QArith_base.Q) : M unit :=
  try (
    result_text <- call generate_fn ;;
    if negb simulate_stream then
      on_buffer buffer (StreamingBuffer.append result_text) ;;
      on_buffer buffer StreamingBuffer.mark_done
    else
      let words := Str.split_space result_text in
      for_each words (fun word =>
        on_buffer buffer (StreamingBuffer.append (word +:+ " ")) ;;
        time_sleep chunk_delay_seconds) ;;
      on_buffer buffer StreamingBuffer.mark_done
  ) except (fun gen_err =>
    on_buffer buffer (StreamingBuffer.mark_error (str gen_err))).

Definition submit_streaming_generation (message_id : string)
    (stream_generator_fn : callable generator) : M unit :=
  buffer <- new_buffer ;;
  (fun st => (Returns tt,
              set_generations (<[message_id := buffer]> (_generations st)) st)) ;;
  executor_submit (streaming_run message_id buffer stream_generator_fn).

(** [chunk_count] only feeds the log line and is dropped. *)
Definition streaming_run_body (buffer : addr)
    (stream_generator_fn : callable generator) : M unit :=
  try (
    on_buffer buffer (StreamingBuffer.set_typing_stage thinking) ;;
    stream_generator <- call stream_generator_fn ;;
    for_each_yield stream_generator (fun chunk =>
      if Str.truthy chunk
      then on_buffer buffer (StreamingBuffer.append chunk)
      else ret tt) ;;
    on_buffer buffer StreamingBuffer.mark_done
  ) except (fun gen_err =>
    on_buffer buffer (StreamingBuffer.mark_error (str gen_err))).

Definition get_generation_buffer (message_id : string) : M (option addr) :=
  fun st => (Returns (_generations st !! message_id), st).

(** A [SaveStatus] instance is always truthy, so [if existing and ...]
    tests presence.  A registry entry whose object is missing from the
    store does not arise; it is read as pending. *)
Definition submit_save (message_id : string) (save_fn : callable unit)
  : M unit :=
  status <- new_status message_id ;;
  fun st =>
    let existing := _saves st !! message_id in
    match existing with
    | Some e =>
        let s := default (mkSaveStatus message_id false None)
                         (statuses st !! e) in
        if ok s || bool_decide (error s = None)
        then (Returns tt, st)
        else executor_submit (save_run message_id status save_fn)
               (set_saves (<[message_id := status]> (_saves st)) st)
    | None =>
        executor_submit (save_run message_id status save_fn)
          (set_saves (<[message_id := status]> (_saves st)) st)
    end.

Definition save_run_body (message_id : string) (status : addr)
    (save_fn : callable unit) : M unit :=
  try_finally
    (try (
       call save_fn ;;
       status_set_ok status
     ) except (fun save_err =>
       status_set_error status (str save_err)))
    (fun st => (Returns tt,
                set_saves (<[message_id := status]> (_saves st)) st)).

Definition get_save_status (message_id : string) : M (option addr) :=
  fun st => (Returns (_saves st !! message_id), st).

Definition pop_save_status (message_id : string) : M (option addr) :=
  fun st =>
    match _saves st !! message_id with
    | None => (Returns None, st)
    | Some status =>
        let s := default (mkSaveStatus message_id false None)
                         (statuses st !! status) in
        let is_terminal := ok s || negb (bool_decide (error s = None)) in
        if negb is_terminal then (Returns None, st)
        else (Returns (Some status),
              set_saves (delete message_id (_saves st)) st)
    end.

(** A [StreamingBuffer] instance is always truthy as well. *)
Definition clear_finished_generation (message_id : string) : M unit :=
  fun st =>
    match _generations st !! message_id with
    | Some buf =>
        if StreamingBuffer.is_done
             (default StreamingBuffer.__init__ (buffers st !! buf))
        then (Returns tt,
              set_generations (delete message_id (_generations st)) st)
        else (Returns tt, st)
    | None => (Returns tt, st)
    end.

Definition submit_history_load (key : string)
    (load_fn : callable (list row)) : M unit :=
  executor_submit (history_run key load_fn).

(** The handler catches every [Exception], so the [finally] block always
    finds [result] bound and is reached exactly once. *)
Definition history_run_body (key : string) (load_fn : callable (list row))
  : M unit :=
  result <- (try call load_fn except (fun err => ret [])) ;;
  fun st => (Returns tt,
             set_history_results (<[key := result]> (_history_results st)) st).

Definition pop_history_result (key : string) : M (option (list row)) :=
  fun st =>
    (Returns (_history_results st !! key),
     set_history_results (delete key (_history_results st)) st).

(** ** The thread pool

    A job is run as one step: the properties below speak of the state
    before a job has started and after it has ended, and a job writes
    only to the object its closure holds and, under [_registry_lock], to
    the registry. *)

Definition run (j : job) : M unit :=
  match j with
  | generation_run _ buffer generate_fn simulate_stream delay =>
      generation_run_body buffer generate_fn simulate_stream delay
  | streaming_run _ buffer stream_generator_fn =>
      streaming_run_body buffer stream_generator_fn
  | save_run message_id status save_fn =>
      save_run_body message_id status save_fn
  | history_run key load_fn => history_run_body key load_fn
  end.

(** A worker thread takes the [i]-th queued job and runs its [_run] to the
    end.  Whatever the job raises stays in its discarded future. *)
Definition run_job_at (i : nat) (st : state) : state :=
  match _executor st !! i with
  | Some j => snd (run j (set_executor (delete i (_executor st)) st))
  | None => st
  end.

(** Every queued job runs to the end, oldest first. *)
Definition drain (st : state) : state :=
  fold_left (fun s j => snd (run j s)) (_executor st) (set_executor [] st).

(** ** Histories

    A use of one buffer is a sequence of its mutating methods; a use of the
    module is a sequence of calls from the control thread interleaved with
    worker threads completing queued jobs. *)

Inductive buffer_op :=
| op_append (text_chunk : string)
| op_mark_done
| op_mark_error (error_message : string)
| op_set_typing_stage (stage : TypingStage).

Definition apply_op (b : StreamingBuffer.t) (o : buffer_op)
  : StreamingBuffer.t :=
  match o with
  | op_append s => StreamingBuffer.append s b
  | op_mark_done => StreamingBuffer.mark_done b
  | op_mark_error m => StreamingBuffer.mark_error m b
  | op_set_typing_stage g => StreamingBuffer.set_typing_stage g b
  end.

Definition apply_ops (ops : list buffer_op) (b : StreamingBuffer.t)
  : StreamingBuffer.t :=
  fold_left apply_op ops b.

(** Appending a list of fragments in order. *)
Definition append_all (fragments : list string) (b : StreamingBuffer.t)
  : StreamingBuffer.t :=
  fold_left (fun acc s => StreamingBuffer.append s acc) fragments b.

Inductive event :=
| ev_submit_generation (message_id : string) (generate_fn : callable string)
    (simulate_stream : bool) (chunk_delay_seconds : QArith_base.Q)
| ev_submit_streaming_generation (message_id : string)
    (stream_generator_fn : callable generator)
| ev_get_generation_buffer (message_id : string)
| ev_submit_save (message_id : string) (save_fn : callable unit)
| ev_get_save_status (message_id : string)
| ev_pop_save_status (message_id : string)
| ev_clear_finished_generation (message_id : string)
| ev_submit_history_load (key : string) (load_fn : callable (list row))
| ev_pop_history_result (key : string)
| ev_worker (i : nat).

Definition exec {A} (c : M A) (st : state) : state := snd (c st).

Definition step (st : state) (ev : event) : state :=
  match ev with
  | ev_submit_generation k f sim d => exec (submit_generation k f sim d) st
  | ev_submit_streaming_generation k f =>
      exec (submit_streaming_generation k f) st
  | ev_get_generation_buffer k => exec (get_generation_buffer k) st
  | ev_submit_save k f => exec (submit_save k f) st
  | ev_get_save_status k => exec (get_save_status k) st
  | ev_pop_save_status k => exec (pop_save_status k) st
  | ev_clear_finished_generation k => exec (clear_finished_generation k) st
  | ev_submit_history_load k f => exec (submit_history_load k f) st
  | ev_pop_history_result k => exec (pop_history_result k) st
  | ev_worker i => run_job_at i st
  end.

Definition steps (evs : list event) (st : state) : state :=
  fold_left step evs st.

Definition reachable (st : state) : Prop :=
  exists evs, st = steps evs initial.

(** Whether an event registers a generation under [k]. *)
Definition submits_generation (k : string) (ev : event) : bool :=
  match ev with
  | ev_submit_generation k' _ _ _ => bool_decide (k' = k)
  | ev_submit_streaming_generation k' _ => bool_decide (k' = k)
  | _ => false
  end.

(** The callable a job invokes, and the objects its closure holds. *)
Definition job_fn (j : job) : nat :=
  match j with
  | generation_run _ _ f _ _ => fn_id f
  | streaming_run _ _ f => fn_id f
  | save_run _ _ f => fn_id f
  | history_run _ f => fn_id f
  end.

Definition job_buffer (j : job) : option addr :=
  match j with
  | generation_run _ b _ _ _ => Some b
  | streaming_run _ b _ => Some b
  | _ => None
  end.

Definition job_status (j : job) : option addr :=
  match j with
  | save_run _ s _ => Some s
  | _ => None
  end.

(** Every reference held by a registry or a queued closure points into the
    store, and no buffer is registered under two keys. *)
Record wf (st : state) : Prop := mk_wf {
  wf_job_buffer : forall j b,
    j ∈ _executor st -> job_buffer j = Some b -> b < length (buffers st);
  wf_job_status : forall j s,
    j ∈ _executor st -> job_status j = Some s -> s < length (statuses st);
  wf_generations : forall k b,
    _generations st !! k = Some b -> b < length (buffers st);
  wf_generations_inj : forall k1 k2 b,
    _generations st !! k1 = Some b -> _generations st !! k2 = Some b ->
    k1 = k2;
  wf_saves : forall k s,
    _saves st !! k = Some s -> s < length (statuses st)
}.

(** What a finished generation leaves in the buffer registered under a
    key, as the poller reads it. *)
Definition poll (k : string) (st : state)
  : option (string * bool * option string) :=
  match _generations st !! k with
  | Some a =>
      match buffers st !! a with
      | Some b => Some (StreamingBuffer.read_all b,
                        StreamingBuffer.is_done b,
                        StreamingBuffer.error b)
      | None => None
      end
  | None => None
  end.

(** [error] set implies [done], the invariant of one buffer. *)
Definition error_implies_done (b : StreamingBuffer.t) : Prop :=
  StreamingBuffer.error b <> None -> StreamingBuffer.is_done b = true.

(** *** What a finished job has done

    The change a job makes to the one object its closure holds, written
    as a function of that object.  The lemmas [generation_run_closed],
    [streaming_run_closed], [save_run_closed] and [history_run_closed]
    below derive these from the [_run] bodies. *)

Definition sleep_error : string := "sleep length must be non-negative".

Definition spaced (words : list string) : list string :=
  map (fun word => word +:+ " ") words.

Definition generation_effect (generate_fn : callable string)
    (simulate_stream : bool) (chunk_delay_seconds : QArith_base.Q)
    (b : StreamingBuffer.t) : StreamingBuffer.t :=
  match fn_outcome generate_fn with
  | Raises e => StreamingBuffer.mark_error (str e) b
  | Returns result_text =>
      if negb simulate_stream
      then StreamingBuffer.mark_done (StreamingBuffer.append result_text b)
      else if QArith_base.Qle_bool (QArith_base.Qmake 0 1) chunk_delay_seconds
      then StreamingBuffer.mark_done
             (append_all (spaced (Str.split_space result_text)) b)
      else match Str.split_space result_text with
           | word :: _ =>
               StreamingBuffer.mark_error sleep_error
                 (StreamingBuffer.append (word +:+ " ") b)
           | [] => StreamingBuffer.mark_done b
           end
  end.

Definition streaming_effect (stream_generator_fn : callable generator)
    (b : StreamingBuffer.t) : StreamingBuffer.t :=
  let b := StreamingBuffer.set_typing_stage thinking b in
  match fn_outcome stream_generator_fn with
  | Raises e => StreamingBuffer.mark_error (str e) b
  | Returns g =>
      match ending g with
      | None => StreamingBuffer.mark_done (append_all (yields g) b)
      | Some e => StreamingBuffer.mark_error (str e) (append_all (yields g) b)
      end
  end.

Definition save_effect (save_fn : callable unit) (s : SaveStatus)
  : SaveStatus :=
  match fn_outcome save_fn with
  | Returns _ => mkSaveStatus (message_id s) true (error s)
  | Raises e => mkSaveStatus (message_id s) (ok s) (Some (str e))
  end.

Definition history_result (load_fn : callable (list row)) : list row :=
  match fn_outcome load_fn with
  | Returns result => result
  | Raises _ => []
  end.

(** Running a list of jobs one after the other. *)
Definition run_all (js : list job) (st : state) : state :=
  fold_left (fun s j => exec (run j) s) js st.

(** The three parts of [wf], over the sizes of the two stores. *)
Definition jobs_wf (nb ns : nat) (js : list job) : Prop :=
  forall j, j ∈ js ->
    (forall b, job_buffer j = Some b -> b < nb)
    /\ (forall s, job_status j = Some s -> s < ns).

Definition generations_wf (nb : nat) (g : gmap string addr) : Prop :=
  (forall k b, g !! k = Some b -> b < nb)
  /\ (forall k1 k2 b, g !! k1 = Some b -> g !! k2 = Some b -> k1 = k2).

Definition saves_wf (ns : nat) (g : gmap string addr) : Prop :=
  forall k s, g !! k = Some s -> s < ns.

(** The buffers that queued jobs will write to.  No two queued jobs hold
    the same buffer, and a buffer held by a queued job is still as
    [__init__] left it. *)
Definition queued_buffers (st : state) : list addr :=
  omap job_buffer (_executor st).

Definition queued_fresh (st : state) : Prop :=
  NoDup (queued_buffers st)
  /\ forall b, b ∈ queued_buffers st ->
               buffers st !! b = Some StreamingBuffer.__init__.

(** The key an event or a job works under. *)
Definition event_key (ev : event) : option string :=
  match ev with
  | ev_submit_generation k _ _ _ => Some k
  | ev_submit_streaming_generation k _ => Some k
  | ev_get_generation_buffer k => Some k
  | ev_submit_save k _ => Some k
  | ev_get_save_status k => Some k
  | ev_pop_save_status k => Some k
  | ev_clear_finished_generation k => Some k
  | ev_submit_history_load k _ => Some k
  | ev_pop_history_result k => Some k
  | ev_worker _ => None
  end.

Definition job_key (j : job) : string :=
  match j with
  | generation_run k _ _ _ _ => k
  | streaming_run k _ _ => k
  | save_run k _ _ => k
  | history_run k _ => k
  end.

Definition is_submission (ev : event) : bool :=
  match ev with
  | ev_submit_generation _ _ _ _ => true
  | ev_submit_streaming_generation _ _ => true
  | ev_submit_save _ _ => true
  | ev_submit_history_load _ _ => true
  | _ => false
  end.

(** The callables a step invokes. *)
Definition invoked (st : state) (ev : event) : list nat :=
  match ev with
  | ev_worker i =>
      match _executor st !! i with
      | Some j => [job_fn j]
      | None => []
      end
  | _ => []
  end.

(** How many submissions a history contains. *)
Definition submissions (evs : list event) : nat :=
  length (List.filter is_submission evs).

(** * app_lakebase/app/utils/table_formatter.py

    [detect_and_format_tables] is applied by the polling tick to the text
    of every finished buffer.  The functions work on [str] values only;
    characters are the code points below 256. *)

Module Py.

Definition tab : ascii := Ascii.ascii_of_nat 9.
Definition newline : ascii := Ascii.ascii_of_nat 10.
Definition pipe : ascii := Ascii.ascii_of_nat 124.
Definition backslash : ascii := Ascii.ascii_of_nat 92.

(** [c in s] for a one-character [c] *)
Fixpoint contains (c : ascii) (s : string) : bool :=
  match s with
  | EmptyString => false
  | String x r => Ascii.eqb x c || contains c r
  end.

(** [s.count(c)] for a one-character [c] *)
Fixpoint count (c : ascii) (s : string) : nat :=
  match s with
  | EmptyString => 0
  | String x r => (if Ascii.eqb x c then 1 else 0) + count c r
  end.

(** [s.split(sep)] for a one-character [sep] *)
Fixpoint split (sep : ascii) (s : string) : list string :=
  match s with
  | EmptyString => [EmptyString]
  | String c r =>
      if Ascii.eqb c sep then EmptyString :: split sep r
      else match split sep r with
           | w :: ws => String c w :: ws
           | [] => [String c EmptyString]
           end
  end.

(** [c.isspace()]: the white space among the code points below 256 *)
Definition isspace (c : ascii) : bool :=
  let n := Ascii.nat_of_ascii c in
  (9 <=? n) && (n <=? 13) || (28 <=? n) && (n <=? 32)
  || (n =? 133) || (n =? 160).

Fixpoint lstrip (s : string) : string :=
  match s with
  | EmptyString => EmptyString
  | String c r => if isspace c then lstrip r else s
  end.

Fixpoint rstrip (s : string) : string :=
  match s with
  | EmptyString => EmptyString
  | String c r =>
      match rstrip r with
      | EmptyString => if isspace c then EmptyString else String c EmptyString
      | r' => String c r'
      end
  end.

(** [s.strip()] *)
Definition strip (s : string) : string := rstrip (lstrip s).

(** [s.replace(old, new)] for a one-character [old] *)
Fixpoint replace (old : ascii) (new : string) (s : string) : string :=
  match s with
  | EmptyString => EmptyString
  | String c r =>
      if Ascii.eqb c old then new +:+ replace old new r
      else String c (replace old new r)
  end.

End Py.

(** ["\n"] *)
Definition nl : string := String Py.newline EmptyString.

Definition _escape_markdown_cell (text : string) : string :=
  Py.replace Py.pipe (String Py.backslash (String Py.pipe EmptyString)) text.

Definition _is_tsv_row (line : string) : bool :=
  if negb (Py.contains Py.tab line) then false
  else
    let parts := Py.split Py.tab line in
    1 <? length parts.

(** [block_lines[0]] raises [IndexError] on an empty list: [None]. *)
Definition _should_convert_block (block_lines : list string) : option bool :=
  if 2 <=? length block_lines then Some true
  else
    first ← block_lines !! 0;
    let parts := Py.split Py.tab first in
    Some (3 <=? length parts).

(** ["| " + " | ".join(cells) + " |"] *)
Definition md_row (cells : list string) : string :=
  "| " +:+ Str.join " | " cells +:+ " |".

(** The local [rows], [max_cols] and [norm_rows] of
    [_convert_tsv_block_to_markdown]. *)
Definition tsv_rows (block_lines : list string) : list (list string) :=
  map (fun line => map Py.strip (Py.split Py.tab line)) block_lines.

Definition tsv_max_cols (rows : list (list string)) : nat :=
  match rows with
  | [] => 0
  | _ => max_list (map length rows)
  end.

Definition tsv_norm_rows (max_cols : nat) (rows : list (list string))
  : list (list string) :=
  map (fun r =>
         let padded := r ++ replicate (max_cols - length r) EmptyString in
         map _escape_markdown_cell padded)
      rows.

(** [norm_rows[0]] raises [IndexError] on an empty list: [None]. *)
Definition _convert_tsv_block_to_markdown (block_lines : list string)
  : option string :=
  let rows := tsv_rows block_lines in
  let max_cols := tsv_max_cols rows in
  if max_cols <=? 1 then Some (Str.join nl block_lines)
  else
    let norm_rows := tsv_norm_rows max_cols rows in
    header ← norm_rows !! 0;
    let body := if 1 <? length norm_rows then drop 1 norm_rows else [] in
    let md_lines :=
      [md_row header; md_row (replicate max_cols "---")] ++ map md_row body in
    Some (Str.join nl md_lines).

(** The inner [while]: from the lines after [lines[start]], the rows that
    extend the block and the lines from [end + 1] on. *)
Fixpoint tsv_run (lines : list string) : list string * list string :=
  match lines with
  | [] => ([], [])
  | line :: rest =>
      if _is_tsv_row line
      then let '(block, after) := tsv_run rest in (line :: block, after)
      else ([], lines)
  end.

(** The outer [while i < n], on the lines from [i] on.  Each round moves
    [i] forward, so [n] rounds are enough; [None] stands for an exception
    or for rounds running out. *)
Fixpoint scan (rounds : nat) (lines result_lines : list string)
  : option (list string) :=
  match lines with
  | [] => Some result_lines
  | line :: rest =>
      match rounds with
      | 0 => None
      | S rounds =>
          if _is_tsv_row line then
            let '(more, after) := tsv_run rest in
            let block := line :: more in
            convert ← _should_convert_block block;
            if convert : bool then
              md_block ← _convert_tsv_block_to_markdown block;
              let r1 :=
                match last result_lines with
                | Some l => if Str.truthy (Py.strip l)
                            then result_lines ++ [EmptyString]
                            else result_lines
                | None => result_lines
                end in
              let r2 := r1 ++ Py.split Py.newline md_block in
              let r3 :=
                match after with
                | next :: _ => if Str.truthy (Py.strip next)
                               then r2 ++ [EmptyString]
                               else r2
                | [] => r2
                end in
              scan rounds after r3
            else scan rounds after (result_lines ++ block)
          else scan rounds rest (result_lines ++ [line])
      end
  end.

Definition detect_and_format_tables (text : string) : option string :=
  if negb (Str.truthy text) || negb (Py.contains Py.tab text) then Some text
  else
    let lines := Py.split Py.newline text in
    let n := length lines in
    result_lines ← scan n lines [];
    Some (Str.join nl result_lines).

(** Every ["|"] of [s] comes right after a backslash. *)
Fixpoint pipes_escaped (after_backslash : bool) (s : string) : bool :=
  match s with
  | EmptyString => true
  | String c r =>
      (negb (Ascii.eqb c Py.pipe) || after_backslash)
      && pipes_escaped (Ascii.eqb c Py.backslash) r
  end.

(** Lines in which every TSV row stands alone (the line after it is not
    a TSV row) and has exactly two columns: nothing there is converted. *)
Fixpoint settled (lines : list string) : bool :=
  match lines with
  | [] => true
  | line :: rest =>
      (if _is_tsv_row line
       then negb (2 <=? Py.count Py.tab line)
            && match rest with
               | next :: _ => negb (_is_tsv_row next)
               | [] => true
               end
       else true)
      && settled rest
  end.

(** The lines that are not TSV rows, in order. *)
Definition plain_lines (lines : list string) : list string :=
  filter (fun line => _is_tsv_row line = false) lines.

(** * app_lakebase/app/utils/token_counter.py

    [estimate_tokens_from_text] counts words with a regular expression and
    scales the count in floating point; it is taken as a parameter, any
    function from texts to non-negative integers.  A message is read only
    through its [content], which is absent, [None] or a [str]. *)

Record ChatMessage := mkChatMessage {
  role : string;
  content : option string
}.

(** [if message.content:] *)
Definition content_truthy (message : ChatMessage) : bool :=
  match content message with
  | Some text => Str.truthy text
  | None => false
  end.

Section TokenCounter.

Variable estimate_tokens_from_text : string -> nat.

Definition count_total_tokens (system_prompt : string)
    (messages : list ChatMessage) : nat :=
  let total_tokens := 0 in
  let total_tokens :=
    if Str.truthy system_prompt
    then total_tokens + estimate_tokens_from_text system_prompt
    else total_tokens in
  fold_left
    (fun total_tokens message =>
       if content_truthy message
       then total_tokens
            + estimate_tokens_from_text (default EmptyString (content message))
            + 10
       else total_tokens)
    messages total_tokens.

(** The same count over message dictionaries, with the prompt optional. *)
Definition count_total_tokens_from_dicts (message_dicts : list ChatMessage)
    (system_prompt : string) : nat :=
  count_total_tokens system_prompt message_dicts.

(** The [for i in range(len(messages))] loop, on [messages[i:]]. *)
Fixpoint trim_messages_to_fit (messages : list ChatMessage)
    (system_prompt : string) (max_tokens : Z) : list ChatMessage :=
  match messages with
  | [] => []
  | _ :: later =>
      let candidate_messages := messages in
      let total_tokens := count_total_tokens system_prompt candidate_messages in
      if (Z.of_nat total_tokens <=? max_tokens)%Z then candidate_messages
      else trim_messages_to_fit later system_prompt max_tokens
  end.

Fixpoint trim_message_dicts_to_fit (message_dicts : list ChatMessage)
    (max_tokens : Z) : list ChatMessage :=
  match message_dicts with
  | [] => []
  | _ :: later =>
      let candidate_messages := message_dicts in
      let total_tokens :=
        count_total_tokens_from_dicts candidate_messages EmptyString in
      if (Z.of_nat total_tokens <=? max_tokens)%Z then candidate_messages
      else trim_message_dicts_to_fit later max_tokens
  end.

End TokenCounter.

(** What one message adds to the count. *)
Definition message_cost (estimate : string -> nat) (message : ChatMessage)
  : nat :=
  if content_truthy message
  then estimate (default EmptyString (content message)) + 10
  else 0.

(** * Properties *)

(** ** Strings *)

Lemma append_cons (c : ascii) (a b : string) :
  String c a +:+ b = String c (a +:+ b).
Proof. reflexivity. Qed.

Lemma append_empty_r (s : string) : s +:+ "" = s.
Proof.
  induction s as [|c s IH]; [done|]. by rewrite append_cons, IH.
Qed.

Lemma append_assoc (a b c : string) : (a +:+ b) +:+ c = a +:+ (b +:+ c).
Proof.
  induction a as [|x a IH]; [done|]. by rewrite !append_cons, IH.
Qed.

Lemma length_append (a b : string) :
  String.length (a +:+ b) = String.length a + String.length b.
Proof.
  induction a as [|x a IH]; [done|]. rewrite append_cons. simpl. by rewrite IH.
Qed.

Lemma join_cons (x : string) (l : list string) :
  Str.join "" (x :: l) = x +:+ Str.join "" l.
Proof.
  unfold Str.join. destruct l as [|y l]; simpl.
  - by rewrite append_empty_r.
  - done.
Qed.

Lemma join_app (l1 l2 : list string) :
  Str.join "" (l1 ++ l2) = Str.join "" l1 +:+ Str.join "" l2.
Proof.
  induction l1 as [|x l1 IH].
  - done.
  - rewrite <- app_comm_cons, !join_cons, IH. by rewrite append_assoc.
Qed.

Lemma join_snoc (l : list string) (x : string) :
  Str.join "" (l ++ [x]) = Str.join "" l +:+ x.
Proof. rewrite join_app. f_equal. Qed.

(** A non-negative start below the length cuts the string in two. *)
Lemma drop_split (n : nat) (s : string) :
  exists p, s = p +:+ Str.drop n s /\
            String.length p = Nat.min n (String.length s).
Proof.
  revert s. induction n as [|n IH]; intros s.
  - exists "". by destruct s.
  - destruct s as [|c s].
    + by exists "".
    + destruct (IH s) as (p & Hs & Hl).
      exists (String c p). rewrite append_cons. simpl.
      split; [by rewrite <- Hs | by rewrite Hl].
Qed.

Lemma drop_beyond (n : nat) (s : string) :
  String.length s <= n -> Str.drop n s = "".
Proof.
  revert s. induction n as [|n IH]; intros [|c s] H; simpl in *;
    try done; try lia.
  apply IH. lia.
Qed.

Lemma slice_from_nonneg (s : string) (c : Z) :
  (0 <= c)%Z -> Str.slice_from s c = Str.drop (Z.to_nat c) s.
Proof.
  intros Hc. unfold Str.slice_from.
  destruct (Z.ltb_spec c 0) as [?|_]; [lia|].
  destruct (Z.le_gt_cases c (Z.of_nat (String.length s))) as [Hle|Hgt].
  - by rewrite Z.min_l.
  - rewrite Z.min_r by lia. rewrite Nat2Z.id.
    rewrite !drop_beyond; [done | lia | lia].
Qed.

(** ** One buffer *)

Lemma append_empty (b : StreamingBuffer.t) : StreamingBuffer.append "" b = b.
Proof. reflexivity. Qed.

Lemma append_chunks (s : string) (b : StreamingBuffer.t) :
  StreamingBuffer._chunks (StreamingBuffer.append s b) =
  StreamingBuffer._chunks b ++ (if Str.truthy s then [s] else []).
Proof.
  unfold StreamingBuffer.append. destruct (Str.truthy s); simpl; [done|].
  by rewrite app_nil_r.
Qed.

Lemma read_all_append (s : string) (b : StreamingBuffer.t) :
  StreamingBuffer.read_all (StreamingBuffer.append s b) =
  StreamingBuffer.read_all b +:+ s.
Proof.
  unfold StreamingBuffer.read_all. rewrite append_chunks.
  destruct s as [|c s]; simpl.
  - by rewrite app_nil_r, append_empty_r.
  - apply join_snoc.
Qed.

Lemma read_all_append_all (fragments : list string) (b : StreamingBuffer.t) :
  StreamingBuffer.read_all (append_all fragments b) =
  StreamingBuffer.read_all b +:+ fold_right String.append "" fragments.
Proof.
  revert b. induction fragments as [|s l IH]; intros b; simpl.
  - by rewrite append_empty_r.
  - unfold append_all in *. simpl. rewrite IH, read_all_append.
    apply append_assoc.
Qed.

Lemma append_flags (s : string) (b : StreamingBuffer.t) :
  StreamingBuffer._done (StreamingBuffer.append s b) = StreamingBuffer._done b
  /\ StreamingBuffer._error (StreamingBuffer.append s b) =
     StreamingBuffer._error b.
Proof. unfold StreamingBuffer.append. by destruct (Str.truthy s). Qed.

Lemma append_all_flags (l : list string) (b : StreamingBuffer.t) :
  StreamingBuffer._done (append_all l b) = StreamingBuffer._done b
  /\ StreamingBuffer._error (append_all l b) = StreamingBuffer._error b.
Proof.
  revert b. induction l as [|s l IH]; intros b; [done|].
  unfold append_all in *. simpl.
  destruct (IH (StreamingBuffer.append s b)) as [-> ->]. apply append_flags.
Qed.

Lemma set_typing_stage_flags (g : TypingStage) (b : StreamingBuffer.t) :
  StreamingBuffer._chunks (StreamingBuffer.set_typing_stage g b) =
    StreamingBuffer._chunks b
  /\ StreamingBuffer._done (StreamingBuffer.set_typing_stage g b) =
     StreamingBuffer._done b
  /\ StreamingBuffer._error (StreamingBuffer.set_typing_stage g b) =
     StreamingBuffer._error b.
Proof.
  unfold StreamingBuffer.set_typing_stage.
  by destruct (negb (TypingStage_eqb (StreamingBuffer._typing_stage b) g)).
Qed.

Lemma apply_op_invariant (o : buffer_op) (b : StreamingBuffer.t) :
  error_implies_done b -> error_implies_done (apply_op b o).
Proof.
  unfold error_implies_done, StreamingBuffer.error, StreamingBuffer.is_done.
  destruct o as [s| |m|g]; simpl; try done.
  - by destruct (append_flags s b) as [-> ->].
  - by destruct (set_typing_stage_flags g b) as (_ & -> & ->).
Qed.

Lemma apply_op_done (o : buffer_op) (b : StreamingBuffer.t) :
  StreamingBuffer.is_done b = true ->
  StreamingBuffer.is_done (apply_op b o) = true.
Proof.
  unfold StreamingBuffer.is_done.
  destruct o as [s| |m|g]; simpl; try done.
  - by destruct (append_flags s b) as [-> _].
  - by destruct (set_typing_stage_flags g b) as (_ & -> & _).
Qed.

Lemma apply_ops_invariant (ops : list buffer_op) (b : StreamingBuffer.t) :
  error_implies_done b -> error_implies_done (apply_ops ops b).
Proof.
  revert b. induction ops as [|o ops IH]; intros b Hb; [done|].
  apply IH. by apply apply_op_invariant.
Qed.

Lemma apply_ops_done (ops : list buffer_op) (b : StreamingBuffer.t) :
  StreamingBuffer.is_done b = true ->
  StreamingBuffer.is_done (apply_ops ops b) = true.
Proof.
  revert b. induction ops as [|o ops IH]; intros b Hb; [done|].
  apply IH. by apply apply_op_done.
Qed.

(** The scenario of the buffer's contract, and a cursor counted from the
    end, which Python's slice accepts as well. *)
Example read_since_abc :
  let b := append_all ["a"; "b"; "c"] StreamingBuffer.__init__ in
  StreamingBuffer.read_all b = "abc"
  /\ StreamingBuffer.read_since 1 b = "bc"
  /\ StreamingBuffer.read_since 5 b = ""
  /\ StreamingBuffer.read_since (-1) b = "c".
Proof. repeat split. Qed.

(** C6.  Fragments appended in order to a new buffer read back as their
    concatenation in that order; [read_since c], for an offset [c] counted
    from the start, returns what lies beyond the first [c] characters of
    it (nothing once [c] reaches the end); appending the empty fragment
    changes nothing; and marking the buffer done or failed leaves what
    [read_all] returns as it was. *)
Theorem C6_buffer_reads (fragments : list string) (c : Z) (Hc : (0 <= c)%Z) :
  let b := append_all fragments StreamingBuffer.__init__ in
  let whole := fold_right String.append "" fragments in
  StreamingBuffer.read_all b = whole
  /\ (exists consumed,
        whole = consumed +:+ StreamingBuffer.read_since c b
        /\ String.length consumed = Nat.min (Z.to_nat c) (String.length whole))
  /\ (forall b0, StreamingBuffer.append "" b0 = b0)
  /\ (forall b0 m,
        StreamingBuffer.read_all (StreamingBuffer.mark_done b0) =
          StreamingBuffer.read_all b0
        /\ StreamingBuffer.read_all (StreamingBuffer.mark_error m b0) =
           StreamingBuffer.read_all b0).
Proof.
  intros b whole.
  assert (Hall : StreamingBuffer.read_all b = whole).
  { unfold b. by rewrite read_all_append_all. }
  split; [exact Hall|]. split; [|split; [apply append_empty | done]].
  unfold StreamingBuffer.read_since.
  change (Str.join "" (StreamingBuffer._chunks b))
    with (StreamingBuffer.read_all b).
  rewrite Hall, slice_from_nonneg by done.
  apply drop_split.
Qed.

Lemma C6_buffer_reads_witness :
  (0 <= 1)%Z
  /\ let b := append_all ["a"; "b"; "c"] StreamingBuffer.__init__ in
     StreamingBuffer.read_all b = "abc"
     /\ StreamingBuffer.read_since 1 b = "bc"
     /\ exists consumed,
          "abc" = consumed +:+ StreamingBuffer.read_since 1 b
          /\ String.length consumed = 1.
Proof.
  split; [lia|].
  destruct (C6_buffer_reads ["a"; "b"; "c"] 1 ltac:(lia)) as (H1 & H2 & _).
  split; [exact H1|]. split; [reflexivity | exact H2].
Defined.

(** C7.  After [mark_error m] the buffer is done and its error is [m],
    with no call of [mark_done]; whatever methods were called on a buffer
    since its creation, an error that is set comes with [done]; and a
    buffer that is done stays done under every later method call. *)
Theorem C7_done_error_invariant (m : string) (ops : list buffer_op)
    (b : StreamingBuffer.t) :
  (StreamingBuffer.is_done (StreamingBuffer.mark_error m b) = true
   /\ StreamingBuffer.error (StreamingBuffer.mark_error m b) = Some m)
  /\ (StreamingBuffer.error (apply_ops ops StreamingBuffer.__init__) <> None ->
      StreamingBuffer.is_done (apply_ops ops StreamingBuffer.__init__) = true)
  /\ (StreamingBuffer.is_done b = true ->
      StreamingBuffer.is_done (apply_ops ops b) = true).
Proof.
  split; [done|]. split.
  - apply (apply_ops_invariant ops StreamingBuffer.__init__).
    intros H. by destruct H.
  - apply apply_ops_done.
Qed.

Lemma C7_done_error_invariant_witness :
  let ops := [op_append "a"; op_mark_error "x"; op_append "b"; op_mark_done;
              op_mark_error "y"; op_set_typing_stage finishing] in
  let b := StreamingBuffer.mark_error "x" StreamingBuffer.__init__ in
  StreamingBuffer.error (apply_ops ops StreamingBuffer.__init__) <> None
  /\ StreamingBuffer.is_done b = true
  /\ StreamingBuffer.is_done (apply_ops ops StreamingBuffer.__init__) = true
  /\ StreamingBuffer.is_done (apply_ops ops b) = true.
Proof.
  intros ops b.
  destruct (C7_done_error_invariant "x" ops b) as (_ & H2 & H3).
  assert (He : StreamingBuffer.error (apply_ops ops StreamingBuffer.__init__)
               <> None) by (simpl; discriminate).
  assert (Hd : StreamingBuffer.is_done b = true) by reflexivity.
  split; [exact He|]. split; [exact Hd|]. split; [exact (H2 He) | exact (H3 Hd)].
Defined.

(** ** Jobs in closed form *)

Lemma set_buffers_same (st : state) : set_buffers (buffers st) st = st.
Proof. by destruct st. Qed.

Lemma for_each_cons {A} (x : A) (xs : list A) (body : A -> M unit) :
  for_each (x :: xs) body = (body x ;; for_each xs body).
Proof. reflexivity. Qed.

Lemma bind_returns {A B} (c : M A) (k : A -> M B) (st st' : state) (a : A) :
  c st = (Returns a, st') -> bind c k st = k a st'.
Proof. intros H. unfold bind. by rewrite H. Qed.

Lemma bind_raises {A B} (c : M A) (k : A -> M B) (st st' : state) e :
  c st = (Raises e, st') -> bind c k st = (Raises e, st').
Proof. intros H. unfold bind. by rewrite H. Qed.

Lemma try_returns {A} (c : M A) h (st st' : state) (a : A) :
  c st = (Returns a, st') -> try_except c h st = (Returns a, st').
Proof. intros H. unfold try_except. by rewrite H. Qed.

Lemma try_raises {A} (c : M A) h (st st' : state) e :
  c st = (Raises e, st') -> try_except c h st = h e st'.
Proof. intros H. unfold try_except. by rewrite H. Qed.

Ltac state_eq :=
  match goal with
  | st : state |- _ => destruct st; simpl;
                       rewrite ?list_alter_alter_eq; reflexivity
  end.

Lemma simulated_stream_loop (buffer : addr) (delay : QArith_base.Q)
    (words : list string) (st : state) :
  QArith_base.Qle_bool (QArith_base.Qmake 0 1) delay = true ->
  for_each words (fun word =>
      on_buffer buffer (StreamingBuffer.append (word +:+ " ")) ;;
      time_sleep delay) st
  = (Returns tt,
     set_buffers (alter (append_all (spaced words)) buffer (buffers st)) st).
Proof.
  intros Hd. revert st. induction words as [|w words IH]; intros st.
  - simpl. unfold ret. rewrite list_alter_id by done.
    by rewrite set_buffers_same.
  - rewrite for_each_cons.
    erewrite bind_returns; cycle 1.
    { erewrite bind_returns by reflexivity.
      unfold time_sleep. rewrite Hd. reflexivity. }
    rewrite IH. f_equal. state_eq.
Qed.

Lemma simulated_stream_loop_negative (buffer : addr) (delay : QArith_base.Q)
    (w : string) (words : list string) (st : state) :
  QArith_base.Qle_bool (QArith_base.Qmake 0 1) delay = false ->
  for_each (w :: words) (fun word =>
      on_buffer buffer (StreamingBuffer.append (word +:+ " ")) ;;
      time_sleep delay) st
  = (Raises (Exc sleep_error),
     set_buffers
       (alter (StreamingBuffer.append (w +:+ " ")) buffer (buffers st)) st).
Proof.
  intros Hd. rewrite for_each_cons.
  erewrite bind_raises; [reflexivity|].
  erewrite bind_returns by reflexivity.
  unfold time_sleep. rewrite Hd. reflexivity.
Qed.

Lemma generation_run_closed (buffer : addr) (generate_fn : callable string)
    (simulate_stream : bool) (delay : QArith_base.Q) (st : state) :
  generation_run_body buffer generate_fn simulate_stream delay st
  = (Returns tt,
     set_buffers
       (alter (generation_effect generate_fn simulate_stream delay)
              buffer (buffers st))
       (set_calls (calls st ++ [fn_id generate_fn]) st)).
Proof.
  unfold generation_run_body, generation_effect.
  destruct (fn_outcome generate_fn) as [t|e] eqn:Hf.
  - destruct simulate_stream; simpl.
    + destruct (QArith_base.Qle_bool (QArith_base.Qmake 0 1) delay) eqn:Hd.
      * erewrite try_returns; [reflexivity|].
        erewrite bind_returns by (unfold call; rewrite Hf; reflexivity).
        erewrite bind_returns by (by apply simulated_stream_loop).
        unfold on_buffer. f_equal. state_eq.
      * destruct (Str.split_space t) as [|w ws] eqn:Hw.
        -- erewrite try_returns; [reflexivity|].
           erewrite bind_returns by (unfold call; rewrite Hf; reflexivity).
           simpl. rewrite Hw.
           erewrite bind_returns by reflexivity.
           unfold on_buffer. f_equal.
        -- erewrite try_raises; cycle 1.
           { erewrite bind_returns by (unfold call; rewrite Hf; reflexivity).
             simpl. rewrite Hw.
             erewrite bind_raises; [reflexivity|].
             by apply simulated_stream_loop_negative. }
           unfold on_buffer. f_equal. state_eq.
    + erewrite try_returns; [reflexivity|].
      erewrite bind_returns by (unfold call; rewrite Hf; reflexivity).
      simpl. erewrite bind_returns by reflexivity.
      unfold on_buffer. f_equal. state_eq.
  - erewrite try_raises; cycle 1.
    { erewrite bind_raises; [reflexivity|]. unfold call. rewrite Hf.
      reflexivity. }
    unfold on_buffer. f_equal.
Qed.

Lemma streaming_loop (buffer : addr) (chunks : list string) (st : state) :
  for_each chunks (fun chunk =>
      if Str.truthy chunk
      then on_buffer buffer (StreamingBuffer.append chunk)
      else ret tt) st
  = (Returns tt,
     set_buffers (alter (append_all chunks) buffer (buffers st)) st).
Proof.
  revert st. induction chunks as [|c chunks IH]; intros st.
  - simpl. unfold ret. rewrite list_alter_id by done.
    by rewrite set_buffers_same.
  - simpl. unfold bind at 1. destruct c as [|x c]; simpl.
    + unfold ret. by rewrite IH.
    + unfold on_buffer at 1. rewrite IH. simpl.
      rewrite list_alter_alter_eq. by destruct st.
Qed.

Lemma streaming_run_closed (buffer : addr)
    (stream_generator_fn : callable generator) (st : state) :
  streaming_run_body buffer stream_generator_fn st
  = (Returns tt,
     set_buffers
       (alter (streaming_effect stream_generator_fn) buffer (buffers st))
       (set_calls (calls st ++ [fn_id stream_generator_fn]) st)).
Proof.
  unfold streaming_run_body, streaming_effect, try_except.
  unfold bind at 1, on_buffer at 1. unfold bind at 1, call at 1.
  destruct (fn_outcome stream_generator_fn) as [g|e]; simpl.
  - unfold bind at 1, for_each_yield. unfold bind at 1.
    rewrite streaming_loop. simpl.
    destruct (ending g) as [e|]; unfold ret, raise, on_buffer; simpl;
      by rewrite !list_alter_alter_eq.
  - unfold on_buffer. simpl. by rewrite list_alter_alter_eq.
Qed.

Lemma save_run_closed (k : string) (status : addr) (save_fn : callable unit)
    (st : state) :
  save_run_body k status save_fn st
  = (Returns tt,
     set_saves (<[k := status]> (_saves st))
       (set_statuses (alter (save_effect save_fn) status (statuses st))
          (set_calls (calls st ++ [fn_id save_fn]) st))).
Proof.
  unfold save_run_body, save_effect, try_finally, try_except.
  unfold bind, call.
  by destruct (fn_outcome save_fn) as [[]|e].
Qed.

Lemma history_run_closed (key : string) (load_fn : callable (list row))
    (st : state) :
  history_run_body key load_fn st
  = (Returns tt,
     set_history_results
       (<[key := history_result load_fn]> (_history_results st))
       (set_calls (calls st ++ [fn_id load_fn]) st)).
Proof.
  unfold history_run_body, history_result, try_except, bind, call.
  by destruct (fn_outcome load_fn) as [l|e].
Qed.

(** ** What running a job leaves alone *)

Ltac run_cases j :=
  destruct j; unfold exec, run;
  rewrite ?generation_run_closed, ?streaming_run_closed,
          ?save_run_closed, ?history_run_closed; simpl.

Lemma run_returns (j : job) (st : state) : fst (run j st) = Returns tt.
Proof. by run_cases j. Qed.

Lemma run_calls (j : job) (st : state) :
  calls (exec (run j) st) = calls st ++ [job_fn j].
Proof. by run_cases j. Qed.

Lemma run_generations (j : job) (st : state) :
  _generations (exec (run j) st) = _generations st.
Proof. by run_cases j. Qed.

Lemma run_executor (j : job) (st : state) :
  _executor (exec (run j) st) = _executor st.
Proof. by run_cases j. Qed.

Lemma run_buffers_length (j : job) (st : state) :
  length (buffers (exec (run j) st)) = length (buffers st).
Proof. run_cases j; by rewrite ?length_alter. Qed.

Lemma run_statuses_length (j : job) (st : state) :
  length (statuses (exec (run j) st)) = length (statuses st).
Proof. run_cases j; by rewrite ?length_alter. Qed.

Lemma run_buffers_other (j : job) (st : state) (a : addr) :
  job_buffer j <> Some a ->
  buffers (exec (run j) st) !! a = buffers st !! a.
Proof.
  intros Hj. run_cases j; try done;
    apply list_lookup_alter_ne; simpl in Hj; congruence.
Qed.

Lemma run_all_app (js1 js2 : list job) (st : state) :
  run_all (js1 ++ js2) st = run_all js2 (run_all js1 st).
Proof. apply fold_left_app. Qed.

Lemma run_all_calls (js : list job) (st : state) :
  calls (run_all js st) = calls st ++ map job_fn js.
Proof.
  revert st. induction js as [|j js IH]; intros st; simpl.
  - by rewrite app_nil_r.
  - unfold run_all in *. simpl. rewrite IH, run_calls.
    by rewrite <- app_assoc.
Qed.

Lemma run_all_generations (js : list job) (st : state) :
  _generations (run_all js st) = _generations st.
Proof.
  revert st. induction js as [|j js IH]; intros st; [done|].
  unfold run_all in *. simpl. by rewrite IH, run_generations.
Qed.

Lemma run_all_buffers_other (js : list job) (st : state) (a : addr) :
  (forall j, j ∈ js -> job_buffer j <> Some a) ->
  buffers (run_all js st) !! a = buffers st !! a.
Proof.
  revert st. induction js as [|j js IH]; intros st Hjs; [done|].
  unfold run_all in *. simpl. rewrite IH.
  - apply run_buffers_other, Hjs. apply elem_of_cons. by left.
  - intros j' Hj'. apply Hjs, elem_of_cons. by right.
Qed.

Lemma drain_run_all (st : state) :
  drain st = run_all (_executor st) (set_executor [] st).
Proof. reflexivity. Qed.

Lemma drain_calls (st : state) :
  calls (drain st) = calls st ++ map job_fn (_executor st).
Proof. by rewrite drain_run_all, run_all_calls. Qed.

(** ** Submitting a generation and letting the pool finish *)

Lemma wf_initial : wf initial.
Proof.
  split; simpl; intros *;
    rewrite ?lookup_empty, ?elem_of_nil; try done.
Qed.

Lemma submit_generation_closed (k : string) (f : callable string)
    (sim : bool) (d : QArith_base.Q) (st : state) :
  submit_generation k f sim d st
  = (Returns tt,
     mkState (buffers st ++ [StreamingBuffer.__init__]) (statuses st)
       (<[k := length (buffers st)]> (_generations st)) (_saves st)
       (_history_results st)
       (_executor st ++ [generation_run k (length (buffers st)) f sim d])
       (calls st)).
Proof. reflexivity. Qed.

Lemma submit_streaming_generation_closed (k : string)
    (f : callable generator) (st : state) :
  submit_streaming_generation k f st
  = (Returns tt,
     mkState (buffers st ++ [StreamingBuffer.__init__]) (statuses st)
       (<[k := length (buffers st)]> (_generations st)) (_saves st)
       (_history_results st)
       (_executor st ++ [streaming_run k (length (buffers st)) f])
       (calls st)).
Proof. reflexivity. Qed.

(** The job queued last runs last, on a buffer no earlier job has
    touched. *)
Lemma drain_new_buffer (st st1 : state) (k : string) (j : job) :
  wf st ->
  job_buffer j = Some (length (buffers st)) ->
  buffers st1 = buffers st ++ [StreamingBuffer.__init__] ->
  _generations st1 = <[k := length (buffers st)]> (_generations st) ->
  _executor st1 = _executor st ++ [j] ->
  let before := run_all (_executor st) (set_executor [] st1) in
  drain st1 = exec (run j) before
  /\ _generations before !! k = Some (length (buffers st))
  /\ buffers before !! length (buffers st) = Some StreamingBuffer.__init__.
Proof.
  intros Hwf Hj Hb Hg He before. split; [|split].
  - rewrite drain_run_all, He, run_all_app. reflexivity.
  - unfold before. rewrite run_all_generations. simpl.
    rewrite Hg. apply lookup_insert_eq.
  - unfold before. rewrite run_all_buffers_other.
    + simpl. rewrite Hb. by apply list_lookup_middle.
    + intros j' Hj' Hb'. pose proof (wf_job_buffer st Hwf j' _ Hj' Hb'). lia.
Qed.

Lemma generation_completes (st : state) (k : string) (f : callable string)
    (sim : bool) (d : QArith_base.Q) :
  wf st ->
  let st' := drain (exec (submit_generation k f sim d) st) in
  _generations st' !! k = Some (length (buffers st))
  /\ buffers st' !! length (buffers st)
     = Some (generation_effect f sim d StreamingBuffer.__init__).
Proof.
  intros Hwf st'.
  destruct (drain_new_buffer st (exec (submit_generation k f sim d) st) k
              (generation_run k (length (buffers st)) f sim d) Hwf)
    as (Hd & Hg & Hb); try reflexivity.
  unfold st'. rewrite Hd. split.
  - by rewrite run_generations.
  - unfold exec at 1. simpl. rewrite generation_run_closed. simpl.
    rewrite list_lookup_alter_eq. by rewrite Hb.
Qed.

Lemma streaming_completes (st : state) (k : string)
    (f : callable generator) :
  wf st ->
  let st' := drain (exec (submit_streaming_generation k f) st) in
  _generations st' !! k = Some (length (buffers st))
  /\ buffers st' !! length (buffers st)
     = Some (streaming_effect f StreamingBuffer.__init__).
Proof.
  intros Hwf st'.
  destruct (drain_new_buffer st (exec (submit_streaming_generation k f) st) k
              (streaming_run k (length (buffers st)) f) Hwf)
    as (Hd & Hg & Hb); try reflexivity.
  unfold st'. rewrite Hd. split.
  - by rewrite run_generations.
  - unfold exec at 1. simpl. rewrite streaming_run_closed. simpl.
    rewrite list_lookup_alter_eq. by rewrite Hb.
Qed.

Lemma split_space_spaced (t : string) :
  fold_right String.append "" (spaced (Str.split_space t)) = t +:+ " ".
Proof.
  induction t as [|c r IH].
  - reflexivity.
  - simpl Str.split_space. destruct (Ascii.eqb_spec c Str.space) as [->|Hc].
    + unfold spaced in *. simpl. rewrite IH. reflexivity.
    + destruct (Str.split_space r) as [|w ws].
      * simpl in IH. destruct r; discriminate IH.
      * unfold spaced in *. simpl in *. rewrite !append_cons.
        by rewrite <- IH.
Qed.

Lemma read_all_new_append_all (fragments : list string) :
  StreamingBuffer.read_all (append_all fragments StreamingBuffer.__init__)
  = fold_right String.append "" fragments.
Proof. by rewrite read_all_append_all. Qed.

Lemma poll_at (k : string) (st : state) (a : addr) (b : StreamingBuffer.t) :
  _generations st !! k = Some a -> buffers st !! a = Some b ->
  poll k st = Some (StreamingBuffer.read_all b, StreamingBuffer.is_done b,
                    StreamingBuffer.error b).
Proof. intros Hk Ha. unfold poll. by rewrite Hk, Ha. Qed.

(** With a delay that [time.sleep] accepts, a generation whose callable
    returns [t] ends with [t] in the buffer when appended in one shot, and
    with [t] followed by one more space when appended word by word. *)
Lemma generation_final_content (st : state) (k : string)
    (f : callable string) (t : string) (sim : bool) (d : QArith_base.Q) :
  wf st ->
  fn_outcome f = Returns t ->
  QArith_base.Qle_bool (QArith_base.Qmake 0 1) d = true ->
  poll k (drain (exec (submit_generation k f sim d) st))
  = Some (if sim then t +:+ " " else t, true, None).
Proof.
  intros Hwf Hf Hd.
  destruct (generation_completes st k f sim d Hwf) as [Hk Hb].
  rewrite (poll_at _ _ _ _ Hk Hb).
  unfold generation_effect. rewrite Hf, Hd. destruct sim; simpl.
  - unfold StreamingBuffer.read_all. simpl.
    change (Str.join "" (StreamingBuffer._chunks ?b))
      with (StreamingBuffer.read_all b).
    rewrite read_all_new_append_all, split_space_spaced.
    unfold StreamingBuffer.is_done, StreamingBuffer.error. simpl.
    by destruct (append_all_flags (spaced (Str.split_space t))
                   StreamingBuffer.__init__) as [_ ->].
  - unfold StreamingBuffer.read_all, StreamingBuffer.is_done,
      StreamingBuffer.error. simpl.
    rewrite append_chunks.
    destruct (append_flags t StreamingBuffer.__init__) as [_ ->].
    by destruct t.
Qed.

(** C3.  The callable returns ["a b"] and the delay is the default 0.05 s.
    Appended in one shot the buffer ends with ["a b"]; appended word by
    word it ends with ["a b "], one space longer than the text returned. *)
Theorem C3_simulated_stream_trailing_space :
  let f := mkCallable 0 (Returns "a b") in
  let d := QArith_base.Qmake 1 20 in
  poll "m" (drain (exec (submit_generation "m" f false d) initial))
    = Some ("a b", true, None)
  /\ poll "m" (drain (exec (submit_generation "m" f true d) initial))
    = Some ("a b ", true, None)
  /\ "a b " <> "a b".
Proof.
  intros f d. split; [|split].
  - by rewrite (generation_final_content initial "m" f "a b" false d wf_initial).
  - by rewrite (generation_final_content initial "m" f "a b" true d wf_initial).
  - discriminate.
Qed.

(** C4.  A generation whose callable raises [e], at the call or, for a
    streaming source, while it is iterated: the submission returns
    normally, the job returns normally on whatever state it runs, and once
    the pool has finished the buffer registered under the key is done with
    [str(e)] as its error. *)
Theorem C4_generation_error_captured (st : state) (k : string)
    (e : Exception) (f : callable string) (sim : bool) (d : QArith_base.Q)
    (fs : callable generator)
    (Hwf : wf st)
    (Hf : fn_outcome f = Raises e)
    (Hfs : fn_outcome fs = Raises e
           \/ exists g, fn_outcome fs = Returns g /\ ending g = Some e) :
  (fst (submit_generation k f sim d st) = Returns tt
   /\ (forall b s, fst (run (generation_run k b f sim d) s) = Returns tt)
   /\ exists text,
        poll k (drain (exec (submit_generation k f sim d) st))
        = Some (text, true, Some (str e)))
  /\ (fst (submit_streaming_generation k fs st) = Returns tt
      /\ (forall b s, fst (run (streaming_run k b fs) s) = Returns tt)
      /\ exists text,
           poll k (drain (exec (submit_streaming_generation k fs) st))
           = Some (text, true, Some (str e))).
Proof.
  split; (split; [reflexivity|]); (split; [intros b s; apply run_returns|]).
  - destruct (generation_completes st k f sim d Hwf) as [Hk Hb].
    rewrite (poll_at _ _ _ _ Hk Hb). unfold generation_effect. rewrite Hf.
    by eexists.
  - destruct (streaming_completes st k fs Hwf) as [Hk Hb].
    rewrite (poll_at _ _ _ _ Hk Hb). unfold streaming_effect.
    destruct Hfs as [-> | (g & -> & ->)]; by eexists.
Qed.

Lemma C4_generation_error_captured_witness :
  let boom := Exc "boom" in
  let f := mkCallable 0 (Raises boom) in
  let fs := mkCallable 1 (Returns (mkGenerator ["Hel"] (Some boom))) in
  let d := QArith_base.Qmake 1 20 in
  poll "m" (drain (exec (submit_generation "m" f false d) initial))
    = Some ("", true, Some "boom")
  /\ poll "m" (drain (exec (submit_streaming_generation "m" fs) initial))
    = Some ("Hel", true, Some "boom").
Proof.
  intros boom f fs d.
  assert (Hfs : fn_outcome fs = Raises boom
                \/ exists g, fn_outcome fs = Returns g /\ ending g = Some boom).
  { right. eexists. split; reflexivity. }
  destruct (C4_generation_error_captured initial "m" boom f false d fs
              wf_initial eq_refl Hfs)
    as ((_ & _ & t1 & H1) & (_ & _ & t2 & H2)).
  split.
  - rewrite H1. vm_compute in H1. by injection H1 as <-.
  - rewrite H2. vm_compute in H2. by injection H2 as <-.
Defined.

(** C5.  A streaming generation whose source yields a finite sequence of
    chunks and then ends: once the pool has finished, the buffer registered
    under the key reads as the chunks concatenated in the order they were
    yielded, it is done, and no error is set. *)
Theorem C5_streaming_preserves_chunks (st : state) (k : string)
    (f : callable generator) (chunks : list string)
    (Hwf : wf st)
    (Hf : fn_outcome f = Returns (mkGenerator chunks None)) :
  poll k (drain (exec (submit_streaming_generation k f) st))
  = Some (fold_right String.append "" chunks, true, None).
Proof.
  destruct (streaming_completes st k f Hwf) as [Hk Hb].
  rewrite (poll_at _ _ _ _ Hk Hb). unfold streaming_effect. rewrite Hf.
  simpl ending. simpl yields. cbv iota.
  unfold StreamingBuffer.read_all, StreamingBuffer.is_done,
    StreamingBuffer.error. simpl.
  change (Str.join "" (StreamingBuffer._chunks ?b))
    with (StreamingBuffer.read_all b).
  rewrite read_all_append_all.
  by destruct (append_all_flags chunks
                 (StreamingBuffer.set_typing_stage thinking
                    StreamingBuffer.__init__)) as [_ ->].
Qed.

Lemma C5_streaming_preserves_chunks_witness :
  let f := mkCallable 0 (Returns (mkGenerator ["Hel"; "lo"] None)) in
  poll "m" (drain (exec (submit_streaming_generation "m" f) initial))
  = Some ("Hello", true, None).
Proof.
  intros f.
  exact (C5_streaming_preserves_chunks initial "m" f ["Hel"; "lo"]
           wf_initial eq_refl).
Defined.

(** ** Polling the registries *)

(** C1.  [pop_save_status] on a key with no entry returns nothing and
    changes nothing; on a key whose entry is pending ([ok] false, [error]
    unset) it returns nothing and leaves the entry in place; on a key whose
    entry is terminal ([ok] true, or [error] set) it returns the entry and
    removes it, and popping the same key again right away returns
    nothing. *)
Theorem C1_pop_save_status_terminal_only (k : string) (st : state) :
  (_saves st !! k = None -> pop_save_status k st = (Returns None, st))
  /\ (forall a s,
        _saves st !! k = Some a -> statuses st !! a = Some s ->
        ok s = false -> error s = None ->
        pop_save_status k st = (Returns None, st))
  /\ (forall a s,
        _saves st !! k = Some a -> statuses st !! a = Some s ->
        ok s = true \/ error s <> None ->
        let st' := set_saves (delete k (_saves st)) st in
        pop_save_status k st = (Returns (Some a), st')
        /\ _saves st' !! k = None
        /\ statuses st' !! a = Some s
        /\ pop_save_status k st' = (Returns None, st')).
Proof.
  split; [|split].
  - intros Hk. unfold pop_save_status. by rewrite Hk.
  - intros a s Hk Hs Hok He. unfold pop_save_status.
    rewrite Hk, Hs. simpl. rewrite Hok, He. reflexivity.
  - intros a s Hk Hs Ht st'.
    assert (Hpop : pop_save_status k st = (Returns (Some a), st')).
    { unfold pop_save_status. rewrite Hk, Hs. simpl.
      destruct Ht as [-> | He]; [reflexivity|].
      rewrite (bool_decide_eq_false_2 _ He). simpl.
      by rewrite orb_true_r. }
    assert (Hgone : _saves st' !! k = None) by apply lookup_delete_eq.
    split; [exact Hpop|]. split; [exact Hgone|]. split; [exact Hs|].
    unfold pop_save_status. by rewrite Hgone.
Qed.

Lemma C1_pop_save_status_terminal_only_witness :
  let f := mkCallable 0 (Returns tt) in
  let pending := exec (submit_save "k" f) initial in
  let saved := drain pending in
  (_saves initial !! "k" = None
   /\ pop_save_status "k" initial = (Returns None, initial))
  /\ (_saves pending !! "k" = Some 0
      /\ statuses pending !! 0 = Some (mkSaveStatus "k" false None)
      /\ pop_save_status "k" pending = (Returns None, pending))
  /\ (_saves saved !! "k" = Some 0
      /\ statuses saved !! 0 = Some (mkSaveStatus "k" true None)
      /\ fst (pop_save_status "k" saved) = Returns (Some 0)
      /\ fst (pop_save_status "k" (exec (pop_save_status "k") saved))
         = Returns None).
Proof.
  intros f pending saved.
  assert (H0 : _saves initial !! "k" = None) by reflexivity.
  assert (H1 : _saves pending !! "k" = Some 0) by reflexivity.
  assert (H2 : statuses pending !! 0 = Some (mkSaveStatus "k" false None))
    by reflexivity.
  assert (H3 : _saves saved !! "k" = Some 0) by reflexivity.
  assert (H4 : statuses saved !! 0 = Some (mkSaveStatus "k" true None))
    by reflexivity.
  split; [|split].
  - split; [exact H0|].
    exact (proj1 (C1_pop_save_status_terminal_only "k" initial) H0).
  - split; [exact H1|]. split; [exact H2|].
    exact (proj1 (proj2 (C1_pop_save_status_terminal_only "k" pending))
             0 _ H1 H2 eq_refl eq_refl).
  - split; [exact H3|]. split; [exact H4|].
    destruct (proj2 (proj2 (C1_pop_save_status_terminal_only "k" saved))
                0 _ H3 H4 (or_introl eq_refl)) as (Hp & _ & _ & Hq).
    unfold exec. rewrite Hp. simpl. by rewrite Hq.
Defined.

(** C8.  [submit_history_load] only queues the load; the job, whenever it
    runs, returns normally and stores under the key the list its callable
    returned, or the empty list if the callable raised; once the pool has
    finished that list is what [pop_history_result] returns and removes,
    so popping the same key again right away, like popping a key that
    holds nothing, returns nothing. *)
Theorem C8_history_load_pop_once (key : string) (load_fn : callable (list row))
    (st : state) :
  let stored := match fn_outcome load_fn with
                | Returns result => result
                | Raises _ => []
                end in
  submit_history_load key load_fn st
    = (Returns tt, set_executor (_executor st ++ [history_run key load_fn]) st)
  /\ (forall s,
        fst (run (history_run key load_fn) s) = Returns tt
        /\ _history_results (exec (run (history_run key load_fn)) s) !! key
           = Some stored)
  /\ (let loaded := drain (exec (submit_history_load key load_fn) st) in
      let popped := exec (pop_history_result key) loaded in
      fst (pop_history_result key loaded) = Returns (Some stored)
      /\ _history_results popped !! key = None
      /\ pop_history_result key popped = (Returns None, popped))
  /\ (_history_results st !! key = None ->
      pop_history_result key st = (Returns None, st)).
Proof.
  intros stored.
  assert (Hrun : forall s,
             _history_results (exec (run (history_run key load_fn)) s) !! key
             = Some stored).
  { intros s. unfold exec, run. rewrite history_run_closed. simpl.
    apply lookup_insert_eq. }
  assert (Hnone : forall s, _history_results s !! key = None ->
                            pop_history_result key s = (Returns None, s)).
  { intros s Hs. unfold pop_history_result. rewrite Hs, delete_id by done.
    by destruct s. }
  split; [reflexivity|]. split; [|split].
  - intros s. split; [apply run_returns | apply Hrun].
  - intros loaded popped.
    assert (Hl : _history_results loaded !! key = Some stored).
    { unfold loaded. rewrite drain_run_all. unfold exec at 1. simpl.
      rewrite run_all_app. simpl. apply Hrun. }
    assert (Hp : _history_results popped !! key = None)
      by apply lookup_delete_eq.
    split; [|split].
    + unfold pop_history_result. simpl. by rewrite Hl.
    + exact Hp.
    + by apply Hnone.
  - apply Hnone.
Qed.

Lemma C8_history_load_pop_once_witness :
  let record : row := {[ "id" := PyInt 1 ]} in
  let f := mkCallable 0 (Returns [record]) in
  let loaded := drain (exec (submit_history_load "s1" f) initial) in
  fst (pop_history_result "s1" loaded) = Returns (Some [record])
  /\ fst (pop_history_result "s1" (exec (pop_history_result "s1") loaded))
     = Returns None
  /\ _history_results initial !! "s1" = None
  /\ pop_history_result "s1" initial = (Returns None, initial).
Proof.
  intros record f loaded.
  destruct (C8_history_load_pop_once "s1" f initial)
    as (_ & _ & (H1 & _ & H2) & H3).
  assert (H0 : _history_results initial !! "s1" = None) by reflexivity.
  split; [exact H1|]. split; [exact (f_equal fst H2)|].
  split; [exact H0 | exact (H3 H0)].
Defined.

(** ** The generation registry along a history *)

Lemma run_job_at_generations (i : nat) (st : state) :
  _generations (run_job_at i st) = _generations st.
Proof.
  unfold run_job_at. destruct (_executor st !! i) as [j|]; [|done].
  fold (exec (run j) (set_executor (delete i (_executor st)) st)).
  by rewrite run_generations.
Qed.

Lemma submit_save_generations (k : string) (f : callable unit) (st : state) :
  _generations (exec (submit_save k f) st) = _generations st.
Proof.
  unfold exec, submit_save, bind, new_status. simpl.
  destruct (_saves st !! k) as [e|]; [|done].
  by destruct (_ || _).
Qed.

Lemma pop_save_status_generations (k : string) (st : state) :
  _generations (exec (pop_save_status k) st) = _generations st.
Proof.
  unfold exec, pop_save_status.
  destruct (_saves st !! k) as [e|]; [|done].
  by destruct (negb _).
Qed.

Lemma clear_finished_generation_lookup (k k' : string) (st : state) :
  _generations st !! k' = None ->
  _generations (exec (clear_finished_generation k) st) !! k' = None.
Proof.
  intros Hk'. unfold exec, clear_finished_generation.
  destruct (_generations st !! k) as [a|]; [|done].
  destruct (StreamingBuffer.is_done _); [|done].
  simpl. rewrite lookup_delete_None. by right.
Qed.

Lemma step_generations_absent (k : string) (ev : event) (st : state) :
  submits_generation k ev = false ->
  _generations st !! k = None ->
  _generations (step st ev) !! k = None.
Proof.
  intros Hev Hk.
  destruct ev as [k' f sim d|k' f|k'|k' f|k'|k'|k'|k' f|k'|i]; simpl in *;
    try done.
  - apply bool_decide_eq_false_1 in Hev. by rewrite lookup_insert_ne.
  - apply bool_decide_eq_false_1 in Hev. by rewrite lookup_insert_ne.
  - by rewrite submit_save_generations.
  - by rewrite pop_save_status_generations.
  - by apply clear_finished_generation_lookup.
  - by rewrite run_job_at_generations.
Qed.

Lemma steps_generations_absent (k : string) (evs : list event) (st : state) :
  forallb (fun ev => negb (submits_generation k ev)) evs = true ->
  _generations st !! k = None ->
  _generations (steps evs st) !! k = None.
Proof.
  revert st. induction evs as [|ev evs IH]; intros st Hevs Hk; [done|].
  simpl in Hevs. apply andb_true_iff in Hevs as [Hev Hevs].
  apply negb_true_iff in Hev.
  unfold steps in *. simpl. apply IH; [done|].
  by apply step_generations_absent.
Qed.

(** C9.  [get_generation_buffer] returns what the registry holds under the
    key and leaves the whole state as it was; it returns nothing after any
    history in which the key was never submitted, and nothing once the
    key has been cleaned up.  [clear_finished_generation] removes the key
    when its buffer is done, and changes nothing when the key is absent or
    its buffer is not done, in which case the buffer is still returned by
    the lookup. *)
Theorem C9_lookup_and_cleanup_frame (k : string) (st : state) :
  get_generation_buffer k st = (Returns (_generations st !! k), st)
  /\ (forall evs,
        forallb (fun ev => negb (submits_generation k ev)) evs = true ->
        fst (get_generation_buffer k (steps evs initial)) = Returns None)
  /\ (forall a b,
        _generations st !! k = Some a -> buffers st !! a = Some b ->
        StreamingBuffer.is_done b = true ->
        clear_finished_generation k st
          = (Returns tt, set_generations (delete k (_generations st)) st)
        /\ fst (get_generation_buffer k
                  (exec (clear_finished_generation k) st)) = Returns None)
  /\ (_generations st !! k = None ->
      clear_finished_generation k st = (Returns tt, st))
  /\ (forall a b,
        _generations st !! k = Some a -> buffers st !! a = Some b ->
        StreamingBuffer.is_done b = false ->
        clear_finished_generation k st = (Returns tt, st)
        /\ fst (get_generation_buffer k
                  (exec (clear_finished_generation k) st))
           = Returns (Some a)).
Proof.
  split; [reflexivity|]. split; [|split; [|split]].
  - intros evs Hevs. unfold get_generation_buffer. simpl.
    by rewrite steps_generations_absent.
  - intros a b Hk Ha Hb.
    assert (Hc : clear_finished_generation k st
                 = (Returns tt,
                    set_generations (delete k (_generations st)) st)).
    { unfold clear_finished_generation. rewrite Hk, Ha. simpl.
      by rewrite Hb. }
    split; [exact Hc|]. unfold exec. rewrite Hc. simpl.
    by rewrite lookup_delete_eq.
  - intros Hk. unfold clear_finished_generation. by rewrite Hk.
  - intros a b Hk Ha Hb.
    assert (Hc : clear_finished_generation k st = (Returns tt, st)).
    { unfold clear_finished_generation. rewrite Hk, Ha. simpl.
      by rewrite Hb. }
    split; [exact Hc|]. unfold exec. rewrite Hc. simpl. by rewrite Hk.
Qed.

Lemma C9_lookup_and_cleanup_frame_witness :
  let f := mkCallable 0 (Returns "hi") in
  let d := QArith_base.Qmake 1 20 in
  let queued := exec (submit_generation "m" f false d) initial in
  let finished := drain queued in
  let evs := [ev_submit_generation "other" f false d; ev_worker 0;
              ev_clear_finished_generation "m"; ev_pop_save_status "m"] in
  fst (get_generation_buffer "m" (steps evs initial)) = Returns None
  /\ fst (get_generation_buffer "m"
            (exec (clear_finished_generation "m") finished)) = Returns None
  /\ clear_finished_generation "m" initial = (Returns tt, initial)
  /\ clear_finished_generation "m" queued = (Returns tt, queued)
  /\ fst (get_generation_buffer "m"
            (exec (clear_finished_generation "m") queued)) = Returns (Some 0).
Proof.
  intros f d queued finished evs.
  split; [|split; [|split]].
  - exact (proj1 (proj2 (C9_lookup_and_cleanup_frame "m" initial))
             evs eq_refl).
  - exact (proj2 (proj1 (proj2 (proj2
             (C9_lookup_and_cleanup_frame "m" finished)))
             0 _ eq_refl eq_refl eq_refl)).
  - exact (proj1 (proj2 (proj2 (proj2
             (C9_lookup_and_cleanup_frame "m" initial)))) eq_refl).
  - exact (proj2 (proj2 (proj2 (proj2
             (C9_lookup_and_cleanup_frame "m" queued))))
             0 _ eq_refl eq_refl eq_refl).
Defined.

(** C10.  Submitting a generation, plain or streaming, under a key that
    already maps to a buffer, whatever state that buffer is in: the key now
    maps to a buffer created by this submission (empty, not done, no
    error), which is another object than the old one; the old object is
    left as it was but no key of the registry leads to it any more. *)
Theorem C10_generation_resubmission_replaces (st st' : state) (k : string)
    (old : addr) (f : callable string) (sim : bool) (d : QArith_base.Q)
    (fs : callable generator)
    (Hwf : wf st)
    (Hold : _generations st !! k = Some old)
    (Hsub : st' = exec (submit_generation k f sim d) st
            \/ st' = exec (submit_streaming_generation k fs) st) :
  let fresh := length (buffers st) in
  fst (get_generation_buffer k st') = Returns (Some fresh)
  /\ fresh <> old
  /\ buffers st' !! fresh = Some StreamingBuffer.__init__
  /\ buffers st' !! old = buffers st !! old
  /\ (forall k', _generations st' !! k' <> Some old).
Proof.
  intros fresh.
  assert (Hlt : old < fresh) by exact (wf_generations st Hwf k old Hold).
  assert (Hb : buffers st' = buffers st ++ [StreamingBuffer.__init__])
    by (by destruct Hsub as [-> | ->]).
  assert (Hg : _generations st' = <[k := fresh]> (_generations st))
    by (by destruct Hsub as [-> | ->]).
  split; [|split; [|split; [|split]]].
  - unfold get_generation_buffer. simpl. rewrite Hg.
    by rewrite lookup_insert_eq.
  - lia.
  - rewrite Hb. by apply list_lookup_middle.
  - rewrite Hb. by apply lookup_app_l.
  - intros k' Hk'. rewrite Hg in Hk'.
    destruct (decide (k = k')) as [<- | Hne].
    + rewrite lookup_insert_eq in Hk'. injection Hk' as Hk'. lia.
    + rewrite lookup_insert_ne in Hk' by done.
      by pose proof (wf_generations_inj st Hwf k k' old Hold Hk').
Qed.

(** ** Saves *)

Lemma submit_save_rejected (k : string) (f : callable unit) (st : state)
    (a : addr) (s : SaveStatus) :
  _saves st !! k = Some a -> statuses st !! a = Some s ->
  ok s = true \/ error s = None ->
  submit_save k f st
  = (Returns tt,
     set_statuses (statuses st ++ [mkSaveStatus k false None]) st).
Proof.
  intros Hk Hs Hguard. unfold submit_save.
  erewrite bind_returns by reflexivity. simpl.
  rewrite Hk, (lookup_app_l_Some _ _ _ _ Hs). simpl.
  destruct Hguard as [-> | ->]; [done|].
  by rewrite orb_true_r.
Qed.

Lemma submit_save_accepted (k : string) (f : callable unit) (st : state) :
  (_saves st !! k = None
   \/ exists a s, _saves st !! k = Some a /\ statuses st !! a = Some s
                  /\ ok s = false /\ error s <> None) ->
  submit_save k f st
  = (Returns tt,
     mkState (buffers st) (statuses st ++ [mkSaveStatus k false None])
       (_generations st) (<[k := length (statuses st)]> (_saves st))
       (_history_results st)
       (_executor st ++ [save_run k (length (statuses st)) f])
       (calls st)).
Proof.
  intros Hcase. unfold submit_save.
  erewrite bind_returns by reflexivity. simpl.
  destruct Hcase as [-> | (a & s & -> & Hs & Hok & He)]; [done|].
  rewrite (lookup_app_l_Some _ _ _ _ Hs). simpl.
  by rewrite Hok, (bool_decide_eq_false_2 _ He).
Qed.

Lemma run_statuses_other (j : job) (st : state) (a : addr) :
  job_status j <> Some a ->
  statuses (exec (run j) st) !! a = statuses st !! a.
Proof.
  intros Hj. run_cases j; try done.
  apply list_lookup_alter_ne. simpl in Hj. congruence.
Qed.

Lemma run_all_statuses_other (js : list job) (st : state) (a : addr) :
  (forall j, j ∈ js -> job_status j <> Some a) ->
  statuses (run_all js st) !! a = statuses st !! a.
Proof.
  revert st. induction js as [|j js IH]; intros st Hjs; [done|].
  unfold run_all in *. simpl. rewrite IH.
  - apply run_statuses_other, Hjs. apply elem_of_cons. by left.
  - intros j' Hj'. apply Hjs, elem_of_cons. by right.
Qed.

(** C2.  While the entry of a key is pending or has succeeded, a further
    [submit_save] for that key registers nothing, queues nothing and
    invokes nothing: registries, queue, call log and every existing object
    are as before, and the pool, run to the end, makes the same calls as
    without it.  When the entry has failed ([error] set, [ok] false), the
    submission is accepted: the key points to a new pending status, the
    job is queued, and once the pool has finished the callable has been
    invoked once and its outcome is recorded in that status. *)
Theorem C2_duplicate_save_guard (st : state) (k : string) (a : addr)
    (s : SaveStatus) (f : callable unit)
    (Hwf : wf st)
    (Hk : _saves st !! k = Some a)
    (Hs : statuses st !! a = Some s) :
  let st' := exec (submit_save k f) st in
  (ok s = true \/ error s = None ->
   fst (submit_save k f st) = Returns tt
   /\ _saves st' = _saves st
   /\ _executor st' = _executor st
   /\ calls st' = calls st
   /\ _generations st' = _generations st
   /\ _history_results st' = _history_results st
   /\ buffers st' = buffers st
   /\ (forall x, x < length (statuses st) ->
                 statuses st' !! x = statuses st !! x)
   /\ calls (drain st') = calls (drain st))
  /\ (ok s = false -> error s <> None ->
      let fresh := length (statuses st) in
      fst (submit_save k f st) = Returns tt
      /\ _saves st' !! k = Some fresh
      /\ statuses st' !! fresh = Some (mkSaveStatus k false None)
      /\ _executor st' = _executor st ++ [save_run k fresh f]
      /\ calls (drain st')
         = calls st ++ map job_fn (_executor st) ++ [fn_id f]
      /\ _saves (drain st') !! k = Some fresh
      /\ statuses (drain st') !! fresh
         = Some (match fn_outcome f with
                 | Returns _ => mkSaveStatus k true None
                 | Raises e => mkSaveStatus k false (Some (str e))
                 end)).
Proof.
  intros st'. split.
  - intros Hguard. unfold st', exec.
    rewrite (submit_save_rejected k f st a s Hk Hs Hguard). simpl.
    repeat (split; [reflexivity|]). split.
    + intros x Hx. by apply lookup_app_l.
    + by rewrite !drain_calls.
  - intros Hok He fresh. unfold st', exec.
    rewrite (submit_save_accepted k f st) by (right; by exists a, s). simpl.
    split; [reflexivity|]. split; [apply lookup_insert_eq|].
    split; [by apply list_lookup_middle|]. split; [reflexivity|].
    rewrite drain_calls. simpl. rewrite map_app. simpl.
    split; [reflexivity|].
    rewrite drain_run_all. simpl. rewrite run_all_app. simpl.
    unfold exec. rewrite save_run_closed. simpl.
    split; [apply lookup_insert_eq|].
    rewrite list_lookup_alter_eq, run_all_statuses_other.
    + simpl. rewrite list_lookup_middle by done. simpl.
      unfold save_effect. by destruct (fn_outcome f).
    + intros j Hj Hsj.
      pose proof (wf_job_status st Hwf j _ Hj Hsj). unfold fresh in *. lia.
Qed.

(** ** Well-formedness is kept along every history *)

Lemma wf_parts (st : state) :
  wf st <->
  jobs_wf (length (buffers st)) (length (statuses st)) (_executor st)
  /\ generations_wf (length (buffers st)) (_generations st)
  /\ saves_wf (length (statuses st)) (_saves st).
Proof.
  split.
  - intros [H1 H2 H3 H4 H5]. split; [|split; [split|]]; try done.
    intros j Hj. split; eauto.
  - intros (Hj & [Hg Hi] & Hs). split; try done.
    + intros j b Hin. by apply (Hj j Hin).
    + intros j s Hin. by apply (Hj j Hin).
Qed.

Lemma jobs_wf_mono (nb ns nb' ns' : nat) (js : list job) :
  nb <= nb' -> ns <= ns' -> jobs_wf nb ns js -> jobs_wf nb' ns' js.
Proof.
  intros Hb Hs H j Hj. destruct (H j Hj) as [H1 H2].
  split; intros x Hx; [specialize (H1 x Hx) | specialize (H2 x Hx)]; lia.
Qed.

Lemma jobs_wf_snoc (nb ns : nat) (js : list job) (j : job) :
  jobs_wf nb ns js ->
  (forall b, job_buffer j = Some b -> b < nb) ->
  (forall s, job_status j = Some s -> s < ns) ->
  jobs_wf nb ns (js ++ [j]).
Proof.
  intros H Hb Hs j' Hj'. apply elem_of_app in Hj' as [Hj' | Hj'].
  - by apply H.
  - apply list_elem_of_singleton in Hj' as ->. by split.
Qed.

Lemma jobs_wf_delete (nb ns : nat) (js : list job) (i : nat) :
  jobs_wf nb ns js -> jobs_wf nb ns (delete i js).
Proof. intros H j Hj. apply H. by eapply list_elem_of_delete_inv. Qed.

Lemma generations_wf_mono (nb nb' : nat) (g : gmap string addr) :
  nb <= nb' -> generations_wf nb g -> generations_wf nb' g.
Proof.
  intros Hn [H1 H2]. split; [|done].
  intros k b Hk. specialize (H1 k b Hk). lia.
Qed.

Lemma generations_wf_insert (nb : nat) (g : gmap string addr) (k : string) :
  generations_wf nb g -> generations_wf (S nb) (<[k := nb]> g).
Proof.
  intros [H1 H2]. split.
  - intros k' b Hk'. apply lookup_insert_Some in Hk' as [[_ <-] | [_ Hk']].
    + lia.
    + specialize (H1 k' b Hk'). lia.
  - intros k1 k2 b Hk1 Hk2.
    apply lookup_insert_Some in Hk1 as [[<- <-] | [Hn1 Hk1]];
      apply lookup_insert_Some in Hk2 as [[<- Hb] | [Hn2 Hk2]]; try done.
    + specialize (H1 k2 _ Hk2). lia.
    + specialize (H1 k1 _ Hk1). lia.
    + by eapply H2.
Qed.

Lemma generations_wf_delete (nb : nat) (g : gmap string addr) (k : string) :
  generations_wf nb g -> generations_wf nb (delete k g).
Proof.
  intros [H1 H2]. split.
  - intros k' b Hk'. apply lookup_delete_Some in Hk' as [_ Hk']. eauto.
  - intros k1 k2 b Hk1 Hk2.
    apply lookup_delete_Some in Hk1 as [_ Hk1].
    apply lookup_delete_Some in Hk2 as [_ Hk2]. eauto.
Qed.

Lemma saves_wf_mono (ns ns' : nat) (g : gmap string addr) :
  ns <= ns' -> saves_wf ns g -> saves_wf ns' g.
Proof. intros Hn H k s Hk. specialize (H k s Hk). lia. Qed.

Lemma saves_wf_insert (ns : nat) (g : gmap string addr) (k : string)
    (s : addr) :
  s < ns -> saves_wf ns g -> saves_wf ns (<[k := s]> g).
Proof.
  intros Hs H k' s' Hk'.
  apply lookup_insert_Some in Hk' as [[_ <-] | [_ Hk']]; eauto.
Qed.

Lemma saves_wf_delete (ns : nat) (g : gmap string addr) (k : string) :
  saves_wf ns g -> saves_wf ns (delete k g).
Proof.
  intros H k' s' Hk'. apply lookup_delete_Some in Hk' as [_ Hk']. eauto.
Qed.

Lemma run_saves (j : job) (st : state) :
  _saves (exec (run j) st)
  = match j with
    | save_run k s _ => <[k := s]> (_saves st)
    | _ => _saves st
    end.
Proof. by run_cases j. Qed.

Lemma wf_register_buffer (st : state) (k : string) (j : job) :
  wf st ->
  job_buffer j = Some (length (buffers st)) -> job_status j = None ->
  wf (mkState (buffers st ++ [StreamingBuffer.__init__]) (statuses st)
        (<[k := length (buffers st)]> (_generations st)) (_saves st)
        (_history_results st) (_executor st ++ [j]) (calls st)).
Proof.
  intros (Hj & Hg & Hs)%wf_parts Hb Hn. apply wf_parts. simpl.
  rewrite length_app. simpl. rewrite Nat.add_1_r.
  split; [|split; [|done]].
  - apply jobs_wf_snoc.
    + eapply jobs_wf_mono; [| |exact Hj]; lia.
    + intros b Hb'. rewrite Hb in Hb'. injection Hb' as <-. lia.
    + intros s Hs'. by rewrite Hn in Hs'.
  - by apply generations_wf_insert.
Qed.

Lemma wf_submit_save (k : string) (f : callable unit) (st : state) :
  wf st -> wf (exec (submit_save k f) st).
Proof.
  intros (Hj & Hg & Hs)%wf_parts. apply wf_parts.
  unfold exec, submit_save. erewrite bind_returns by reflexivity. simpl.
  assert (Hjobs : jobs_wf (length (buffers st))
                    (length (statuses st ++ [mkSaveStatus k false None]))
                    (_executor st)).
  { eapply jobs_wf_mono; [| |exact Hj]; [lia|]. rewrite length_app. lia. }
  assert (Hsaves : saves_wf
                     (length (statuses st ++ [mkSaveStatus k false None]))
                     (_saves st)).
  { eapply saves_wf_mono; [|exact Hs]. rewrite length_app. lia. }
  assert (Hacc :
    jobs_wf (length (buffers st))
      (length (statuses st ++ [mkSaveStatus k false None]))
      (_executor st ++ [save_run k (length (statuses st)) f])
    /\ generations_wf (length (buffers st)) (_generations st)
    /\ saves_wf (length (statuses st ++ [mkSaveStatus k false None]))
         (<[k := length (statuses st)]> (_saves st))).
  { split; [|split; [done|]].
    - apply jobs_wf_snoc; [done|done|].
      intros s [= <-]. rewrite length_app. simpl. lia.
    - apply saves_wf_insert; [|done]. rewrite length_app. simpl. lia. }
  destruct (_saves st !! k) as [e|]; [|exact Hacc].
  destruct (_ || _); [|exact Hacc]. simpl. done.
Qed.

Lemma wf_run_job_at (i : nat) (st : state) : wf st -> wf (run_job_at i st).
Proof.
  intros Hwf. pose proof Hwf as (Hj & Hg & Hs)%wf_parts.
  unfold run_job_at. destruct (_executor st !! i) as [j|] eqn:Hi; [|done].
  fold (exec (run j) (set_executor (delete i (_executor st)) st)).
  apply wf_parts.
  rewrite run_buffers_length, run_statuses_length, run_executor,
    run_generations, run_saves. simpl.
  split; [by apply jobs_wf_delete|]. split; [done|].
  destruct j as [| |k s f|]; try done.
  apply saves_wf_insert; [|done].
  apply (wf_job_status st Hwf (save_run k s f)); [|done].
  by eapply list_elem_of_lookup_2.
Qed.

Lemma wf_step (ev : event) (st : state) : wf st -> wf (step st ev).
Proof.
  intros Hwf.
  destruct ev as [k f sim d|k f|k|k f|k|k|k|k f|k|i]; cbn [step]; try done.
  - unfold exec. rewrite submit_generation_closed.
    by apply wf_register_buffer.
  - unfold exec. rewrite submit_streaming_generation_closed.
    by apply wf_register_buffer.
  - by apply wf_submit_save.
  - pose proof Hwf as (Hj & Hg & Hs)%wf_parts.
    unfold exec, pop_save_status.
    destruct (_saves st !! k) as [a|]; [|done].
    destruct (negb _); [done|]. simpl. apply wf_parts. simpl.
    split; [done|]. split; [done|]. by apply saves_wf_delete.
  - pose proof Hwf as (Hj & Hg & Hs)%wf_parts.
    unfold exec, clear_finished_generation.
    destruct (_generations st !! k) as [a|]; [|done].
    destruct (StreamingBuffer.is_done _); [|done]. simpl.
    apply wf_parts. simpl.
    split; [done|]. split; [|done]. by apply generations_wf_delete.
  - pose proof Hwf as (Hj & Hg & Hs)%wf_parts. apply wf_parts. simpl.
    split; [|done]. by apply jobs_wf_snoc.
  - pose proof Hwf as (Hj & Hg & Hs)%wf_parts. by apply wf_parts.
  - by apply wf_run_job_at.
Qed.

Lemma steps_snoc (evs : list event) (ev : event) (st : state) :
  steps (evs ++ [ev]) st = step (steps evs st) ev.
Proof. unfold steps. by rewrite fold_left_app. Qed.

(** Every state the module can be in is well-formed. *)
Lemma reachable_wf (st : state) : reachable st -> wf st.
Proof.
  intros [evs ->]. induction evs as [|ev evs IH] using rev_ind.
  - apply wf_initial.
  - rewrite steps_snoc. by apply wf_step.
Qed.

(** ** Instances *)

Lemma C2_duplicate_save_guard_witness :
  let f := mkCallable 0 (Returns tt) in
  let g := mkCallable 1 (Raises (Exc "db down")) in
  let pending := steps [ev_submit_save "k" f] initial in
  let saved := steps [ev_submit_save "k" f; ev_worker 0] initial in
  let failed := steps [ev_submit_save "k" g; ev_worker 0] initial in
  (_executor (exec (submit_save "k" f) pending) = _executor pending
   /\ calls (drain (exec (submit_save "k" f) pending)) = [0])
  /\ (_executor (exec (submit_save "k" f) saved) = []
      /\ calls (drain (exec (submit_save "k" f) saved)) = [0])
  /\ (_executor (exec (submit_save "k" f) failed) = [save_run "k" 1 f]
      /\ calls (drain (exec (submit_save "k" f) failed)) = [1; 0]
      /\ statuses (drain (exec (submit_save "k" f) failed)) !! 1
         = Some (mkSaveStatus "k" true None)).
Proof.
  intros f g pending saved failed.
  assert (Hp : wf pending) by (apply reachable_wf; by eexists).
  assert (Hs : wf saved) by (apply reachable_wf; by eexists).
  assert (Hf : wf failed) by (apply reachable_wf; by eexists).
  destruct (C2_duplicate_save_guard pending "k" 0
              (mkSaveStatus "k" false None) f Hp eq_refl eq_refl)
    as [Hdup _].
  destruct (Hdup (or_intror eq_refl)) as (_ & _ & He & _ & _ & _ & _ & _ & Hc).
  destruct (C2_duplicate_save_guard saved "k" 0
              (mkSaveStatus "k" true None) f Hs eq_refl eq_refl)
    as [Hdup' _].
  destruct (Hdup' (or_introl eq_refl))
    as (_ & _ & He' & _ & _ & _ & _ & _ & Hc').
  destruct (C2_duplicate_save_guard failed "k" 0
              (mkSaveStatus "k" false (Some "db down")) f Hf eq_refl eq_refl)
    as [_ Hretry].
  destruct (Hretry eq_refl ltac:(discriminate))
    as (_ & _ & _ & Hq & Hcalls & _ & Hst).
  split; [|split].
  - split; [exact He | exact Hc].
  - split; [exact He' | exact Hc'].
  - split; [exact Hq|]. split; [exact Hcalls | exact Hst].
Defined.

Lemma C10_generation_resubmission_replaces_witness :
  let f := mkCallable 0 (Returns "first") in
  let fs := mkCallable 1 (Returns (mkGenerator ["sec"; "ond"] None)) in
  let d := QArith_base.Qmake 1 20 in
  let st := steps [ev_submit_generation "m" f false d; ev_worker 0] initial in
  let st' := exec (submit_streaming_generation "m" fs) st in
  _generations st !! "m" = Some 0
  /\ fst (get_generation_buffer "m" st') = Returns (Some 1)
  /\ buffers st' !! 1 = Some StreamingBuffer.__init__
  /\ buffers st' !! 0 = buffers st !! 0
  /\ (forall k', _generations st' !! k' <> Some 0).
Proof.
  intros f fs d st st'.
  assert (Hwf : wf st) by (apply reachable_wf; by eexists).
  assert (Hold : _generations st !! "m" = Some 0) by reflexivity.
  destruct (C10_generation_resubmission_replaces st st' "m" 0 f false d fs
              Hwf Hold (or_intror eq_refl)) as (H1 & _ & H3 & H4 & H5).
  split; [exact Hold|]. split; [exact H1|]. split; [exact H3|].
  split; [exact H4 | exact H5].
Defined.

(** * Further properties of the queue *)

Lemma run_all_singleton (j : job) (st : state) :
  run_all [j] st = exec (run j) st.
Proof. reflexivity. Qed.

(** ** Cursors *)

Lemma drop_append_length (p s : string) :
  Str.drop (String.length p) (p +:+ s) = s.
Proof. induction p as [|c p IH]; [by destruct s | exact IH]. Qed.

Lemma drop_length (n : nat) (s : string) :
  String.length (Str.drop n s) = String.length s - n.
Proof.
  revert s. induction n as [|n IH]; intros [|c s]; simpl; try done.
Qed.

Lemma drop_suffix (n : nat) (s : string) :
  exists p, s = p +:+ Str.drop n s.
Proof. destruct (drop_split n s) as (p & Hp & _). by exists p. Qed.

(** X1.  A poller that remembers [length()] as its cursor gets from
    [read_since] exactly the text appended since, and the new length is
    the old one plus the size of that text. *)
Theorem read_since_length_is_delta (b : StreamingBuffer.t)
    (fragments : list string) :
  let b' := append_all fragments b in
  let delta := fold_right String.append "" fragments in
  StreamingBuffer.read_since (Z.of_nat (StreamingBuffer.length b)) b' = delta
  /\ StreamingBuffer.length b'
     = StreamingBuffer.length b + String.length delta
  /\ StreamingBuffer.read_all b'
     = StreamingBuffer.read_all b
       +:+ StreamingBuffer.read_since (Z.of_nat (StreamingBuffer.length b)) b'.
Proof.
  intros b' delta.
  assert (Hall : StreamingBuffer.read_all b'
                 = StreamingBuffer.read_all b +:+ delta)
    by apply read_all_append_all.
  assert (Hsince : StreamingBuffer.read_since
                     (Z.of_nat (StreamingBuffer.length b)) b' = delta).
  { unfold StreamingBuffer.read_since, StreamingBuffer.length.
    change (Str.join "" (StreamingBuffer._chunks ?x))
      with (StreamingBuffer.read_all x).
    rewrite Hall, slice_from_nonneg by lia.
    rewrite Nat2Z.id. apply drop_append_length. }
  split; [exact Hsince|]. split.
  - unfold StreamingBuffer.length.
    change (Str.join "" (StreamingBuffer._chunks ?x))
      with (StreamingBuffer.read_all x).
    by rewrite Hall, length_append.
  - by rewrite Hsince.
Qed.

(** X2.  [read_since] for every integer cursor: the result is always a suffix
    of the whole text; a cursor at or past the end gives the empty text,
    and a negative cursor [-n] gives the last [n] characters (the whole
    text when it is shorter). *)
Theorem read_since_any_cursor (b : StreamingBuffer.t) (c : Z) :
  let whole := StreamingBuffer.read_all b in
  let n := Z.of_nat (String.length whole) in
  (exists p, whole = p +:+ StreamingBuffer.read_since c b)
  /\ Z.of_nat (String.length (StreamingBuffer.read_since c b))
     = (if (c <? 0)%Z then Z.min (- c) n else Z.max (n - c) 0).
Proof.
  intros whole n. unfold StreamingBuffer.read_since.
  change (Str.join "" (StreamingBuffer._chunks b)) with whole.
  unfold Str.slice_from. fold n.
  split; [apply drop_suffix|].
  rewrite drop_length. destruct (Z.ltb_spec c 0); unfold n; lia.
Qed.

(** ** What each step does to the stores and the queue *)

Lemma submit_save_frame (k : string) (f : callable unit) (st : state) :
  let st' := exec (submit_save k f) st in
  buffers st' = buffers st
  /\ _generations st' = _generations st
  /\ _history_results st' = _history_results st
  /\ calls st' = calls st
  /\ statuses st' = statuses st ++ [mkSaveStatus k false None]
  /\ ((_executor st' = _executor st /\ _saves st' = _saves st)
      \/ (_executor st' = _executor st ++ [save_run k (length (statuses st)) f]
          /\ _saves st' = <[k := length (statuses st)]> (_saves st))).
Proof.
  unfold exec, submit_save. erewrite bind_returns by reflexivity. simpl.
  destruct (_saves st !! k) as [e|];
    [|repeat split; right; by split].
  destruct (_ || _); simpl; repeat split;
    first [left; by split | right; by split].
Qed.

Lemma pop_save_status_frame (k : string) (st : state) :
  let st' := exec (pop_save_status k) st in
  buffers st' = buffers st
  /\ statuses st' = statuses st
  /\ _generations st' = _generations st
  /\ _history_results st' = _history_results st
  /\ _executor st' = _executor st
  /\ calls st' = calls st
  /\ (_saves st' = _saves st \/ _saves st' = delete k (_saves st)).
Proof.
  unfold exec, pop_save_status.
  destruct (_saves st !! k) as [a|]; [|repeat split; by left].
  destruct (negb _); simpl; repeat split; first [by left | by right].
Qed.

Lemma clear_finished_generation_frame (k : string) (st : state) :
  let st' := exec (clear_finished_generation k) st in
  buffers st' = buffers st
  /\ statuses st' = statuses st
  /\ _saves st' = _saves st
  /\ _history_results st' = _history_results st
  /\ _executor st' = _executor st
  /\ calls st' = calls st
  /\ (_generations st' = _generations st
      \/ _generations st' = delete k (_generations st)).
Proof.
  unfold exec, clear_finished_generation.
  destruct (_generations st !! k) as [a|]; [|repeat split; by left].
  destruct (StreamingBuffer.is_done _); simpl; repeat split;
    first [by left | by right].
Qed.

Lemma run_job_at_taken (i : nat) (j : job) (st : state) :
  _executor st !! i = Some j ->
  run_job_at i st = exec (run j) (set_executor (delete i (_executor st)) st).
Proof. intros Hi. unfold run_job_at. by rewrite Hi. Qed.

Lemma run_job_at_idle (i : nat) (st : state) :
  _executor st !! i = None -> run_job_at i st = st.
Proof. intros Hi. unfold run_job_at. by rewrite Hi. Qed.

Lemma run_buffers (j : job) (st : state) :
  buffers (exec (run j) st)
  = match j with
    | generation_run _ b f sim d =>
        alter (generation_effect f sim d) b (buffers st)
    | streaming_run _ b f => alter (streaming_effect f) b (buffers st)
    | _ => buffers st
    end.
Proof. by run_cases j. Qed.

(** ** Invariants of the buffers along every history *)

Section BufferInvariant.

Variable P : StreamingBuffer.t -> Prop.
Hypothesis P_init : P StreamingBuffer.__init__.
Hypothesis P_generation :
  forall f sim d b, P b -> P (generation_effect f sim d b).
Hypothesis P_streaming : forall f b, P b -> P (streaming_effect f b).

Lemma step_buffers_Forall (ev : event) (st : state) :
  Forall P (buffers st) -> Forall P (buffers (step st ev)).
Proof using P_init P_generation P_streaming.
  intros H.
  destruct ev as [k f sim d|k f|k|k f|k|k|k|k f|k|i]; cbn [step]; try done.
  - unfold exec. rewrite submit_generation_closed. simpl.
    apply Forall_app. split; [done|]. by apply Forall_singleton.
  - unfold exec. rewrite submit_streaming_generation_closed. simpl.
    apply Forall_app. split; [done|]. by apply Forall_singleton.
  - by destruct (submit_save_frame k f st) as (-> & _).
  - by destruct (pop_save_status_frame k st) as (-> & _).
  - by destruct (clear_finished_generation_frame k st) as (-> & _).
  - destruct (_executor st !! i) as [j|] eqn:Hi.
    + rewrite (run_job_at_taken i j st Hi), run_buffers.
      destruct j; simpl; try done; apply Forall_alter; auto.
    + by rewrite run_job_at_idle.
Qed.

Lemma reachable_buffers_Forall (st : state) :
  reachable st -> Forall P (buffers st).
Proof using P_init P_generation P_streaming.
  intros [evs ->]. induction evs as [|ev evs IH] using rev_ind.
  - constructor.
  - rewrite steps_snoc. by apply step_buffers_Forall.
Qed.

End BufferInvariant.

Lemma append_all_typing_stage (l : list string) (b : StreamingBuffer.t) :
  StreamingBuffer._typing_stage (append_all l b)
  = StreamingBuffer._typing_stage b.
Proof.
  revert b. induction l as [|s l IH]; intros b; [done|].
  unfold append_all in *. simpl. rewrite IH.
  unfold StreamingBuffer.append. by destruct (Str.truthy s).
Qed.

Lemma generation_effect_typing_stage f sim d (b : StreamingBuffer.t) :
  StreamingBuffer._typing_stage (generation_effect f sim d b)
  = StreamingBuffer._typing_stage b.
Proof.
  unfold generation_effect.
  destruct (fn_outcome f) as [t|e]; [|done].
  destruct sim; simpl.
  - destruct (QArith_base.Qle_bool _ d); simpl.
    + apply append_all_typing_stage.
    + destruct (Str.split_space t); [done|]. simpl.
      unfold StreamingBuffer.append. by destruct (Str.truthy _).
  - unfold StreamingBuffer.append. by destruct (Str.truthy t).
Qed.

Lemma generation_effect_done f sim d (b : StreamingBuffer.t) :
  StreamingBuffer._done (generation_effect f sim d b) = true.
Proof.
  unfold generation_effect.
  destruct (fn_outcome f) as [t|e]; [|done].
  destruct sim; simpl; [|done].
  destruct (QArith_base.Qle_bool _ d); [done|].
  by destruct (Str.split_space t).
Qed.

Lemma streaming_effect_done f (b : StreamingBuffer.t) :
  StreamingBuffer._done (streaming_effect f b) = true.
Proof.
  unfold streaming_effect.
  destruct (fn_outcome f) as [g|e]; [|done]. by destruct (ending g).
Qed.

Lemma streaming_effect_typing_stage f (b : StreamingBuffer.t) :
  StreamingBuffer._typing_stage b = thinking ->
  StreamingBuffer._typing_stage (streaming_effect f b) = thinking.
Proof.
  intros Hb. unfold streaming_effect.
  assert (Hs : StreamingBuffer._typing_stage
                 (StreamingBuffer.set_typing_stage thinking b) = thinking).
  { unfold StreamingBuffer.set_typing_stage. rewrite Hb. done. }
  destruct (fn_outcome f) as [g|e]; [|done].
  destruct (ending g); simpl; by rewrite append_all_typing_stage.
Qed.

(** X3.  Whatever is submitted and however the pool schedules it, every buffer
    the module ever created reports the typing stage ["thinking"]: the
    queue never moves a buffer to ["generating"] or ["finishing"]. *)
Theorem typing_stage_stays_thinking (st : state) (a : addr)
    (b : StreamingBuffer.t)
    (Hreach : reachable st)
    (Ha : buffers st !! a = Some b) :
  StreamingBuffer.typing_stage b = thinking.
Proof.
  refine (Forall_lookup_1
            (fun x => StreamingBuffer.typing_stage x = thinking) _ _ _ _ Ha).
  apply reachable_buffers_Forall; [done| | |done].
  - intros f sim d b' Hb'. unfold StreamingBuffer.typing_stage in *.
    by rewrite generation_effect_typing_stage.
  - intros f b' Hb'. by apply streaming_effect_typing_stage.
Qed.

(** X4.  In every state the module can reach, a buffer whose error is set is
    done. *)
Theorem reachable_error_implies_done (st : state) (a : addr)
    (b : StreamingBuffer.t)
    (Hreach : reachable st)
    (Ha : buffers st !! a = Some b) :
  StreamingBuffer.error b <> None -> StreamingBuffer.is_done b = true.
Proof.
  refine (Forall_lookup_1 error_implies_done _ _ _ _ Ha).
  apply reachable_buffers_Forall; [| | |done].
  - intros H. by destruct H.
  - intros f sim d b' _ _. apply generation_effect_done.
  - intros f b' _ _. apply streaming_effect_done.
Qed.

(** ** A finished buffer is never written again *)

Lemma queued_buffers_valid (st : state) (b : addr) :
  wf st -> b ∈ queued_buffers st -> b < length (buffers st).
Proof.
  intros Hwf (j & Hj & Hb)%list_elem_of_omap.
  by apply (wf_job_buffer st Hwf j).
Qed.

Lemma queued_fresh_initial : queued_fresh initial.
Proof.
  split; [constructor|]. intros b Hb. by apply elem_of_nil in Hb.
Qed.

Lemma queued_fresh_register (st : state) (k : string) (j : job)
    (g : gmap string addr) :
  wf st -> queued_fresh st ->
  job_buffer j = Some (length (buffers st)) ->
  queued_fresh
    (mkState (buffers st ++ [StreamingBuffer.__init__]) (statuses st)
       g (_saves st) (_history_results st) (_executor st ++ [j]) (calls st)).
Proof.
  intros Hwf [Hnd Hfresh] Hj. unfold queued_fresh, queued_buffers. simpl.
  rewrite omap_app. simpl. rewrite Hj. simpl. split.
  - apply NoDup_app. split; [done|]. split; [|apply NoDup_singleton].
    intros b Hb ->%list_elem_of_singleton.
    pose proof (queued_buffers_valid st _ Hwf Hb). lia.
  - intros b [Hb | ->%list_elem_of_singleton]%elem_of_app.
    + apply lookup_app_l_Some. by apply Hfresh.
    + by apply list_lookup_middle.
Qed.

Lemma queued_fresh_same (st st' : state) :
  queued_fresh st ->
  buffers st' = buffers st -> _executor st' = _executor st ->
  queued_fresh st'.
Proof.
  intros Hq Hb He. unfold queued_fresh, queued_buffers in *.
  by rewrite Hb, He.
Qed.

Lemma queued_fresh_snoc (st st' : state) (j : job) :
  queued_fresh st -> job_buffer j = None ->
  buffers st' = buffers st -> _executor st' = _executor st ++ [j] ->
  queued_fresh st'.
Proof.
  intros Hq Hj Hb He. unfold queued_fresh, queued_buffers in *.
  rewrite Hb, He, omap_app. simpl. rewrite Hj. simpl. by rewrite app_nil_r.
Qed.

Lemma queued_fresh_run_job_at (i : nat) (st : state) :
  queued_fresh st -> queued_fresh (run_job_at i st).
Proof.
  intros [Hnd Hfresh].
  destruct (_executor st !! i) as [j|] eqn:Hi;
    [|by rewrite run_job_at_idle].
  rewrite (run_job_at_taken i j st Hi).
  unfold queued_fresh, queued_buffers in *.
  rewrite run_executor. simpl.
  rewrite delete_take_drop, omap_app.
  rewrite <- (take_drop_middle _ _ _ Hi), omap_app in Hnd, Hfresh.
  simpl in Hnd, Hfresh.
  destruct (job_buffer j) as [bj|] eqn:Hj; simpl in Hnd, Hfresh.
  - apply NoDup_app in Hnd as (Hn1 & Hdisj & (Hnotin & Hn2)%NoDup_cons).
    split.
    + apply NoDup_app. split; [done|]. split; [|done].
      intros x Hx Hx'. apply (Hdisj x Hx). apply elem_of_cons. by right.
    + intros b Hb. rewrite run_buffers_other.
      * simpl. apply Hfresh. apply elem_of_app in Hb as [Hb | Hb];
          apply elem_of_app; [by left | right].
        apply elem_of_cons. by right.
      * rewrite Hj. intros [= ->].
        apply elem_of_app in Hb as [Hb | Hb]; [|done].
        apply (Hdisj b Hb). apply elem_of_cons. by left.
  - split; [done|]. intros b Hb. rewrite run_buffers_other.
    + simpl. by apply Hfresh.
    + by rewrite Hj.
Qed.

Lemma queued_fresh_step (ev : event) (st : state) :
  wf st -> queued_fresh st -> queued_fresh (step st ev).
Proof.
  intros Hwf Hq.
  destruct ev as [k f sim d|k f|k|k f|k|k|k|k f|k|i]; cbn [step]; try done.
  - unfold exec. rewrite submit_generation_closed.
    by apply queued_fresh_register.
  - unfold exec. rewrite submit_streaming_generation_closed.
    by apply queued_fresh_register.
  - destruct (submit_save_frame k f st) as (Hb & _ & _ & _ & _ & He).
    destruct He as [[He _] | [He _]].
    + by eapply queued_fresh_same.
    + by eapply (queued_fresh_snoc st _
                   (save_run k (length (statuses st)) f)).
  - destruct (pop_save_status_frame k st) as (Hb & _ & _ & _ & He & _).
    by eapply queued_fresh_same.
  - destruct (clear_finished_generation_frame k st)
      as (Hb & _ & _ & _ & He & _).
    by eapply queued_fresh_same.
  - by eapply (queued_fresh_snoc st _ (history_run k f)).
  - by apply queued_fresh_run_job_at.
Qed.

Lemma reachable_queued_fresh (st : state) : reachable st -> queued_fresh st.
Proof.
  intros [evs ->]. induction evs as [|ev evs IH] using rev_ind.
  - apply queued_fresh_initial.
  - rewrite steps_snoc. apply queued_fresh_step; [|done].
    apply reachable_wf. by eexists.
Qed.

Lemma reachable_steps (evs : list event) (st : state) :
  reachable st -> reachable (steps evs st).
Proof.
  intros [evs0 ->]. exists (evs0 ++ evs). unfold steps.
  by rewrite fold_left_app.
Qed.

Lemma done_buffer_step (ev : event) (st : state) (a : addr)
    (b : StreamingBuffer.t) :
  queued_fresh st ->
  buffers st !! a = Some b -> StreamingBuffer.is_done b = true ->
  buffers (step st ev) !! a = Some b.
Proof.
  intros [_ Hfresh] Ha Hdone.
  destruct ev as [k f sim d|k f|k|k f|k|k|k|k f|k|i]; cbn [step]; try done.
  - unfold exec. rewrite submit_generation_closed. simpl.
    by apply lookup_app_l_Some.
  - unfold exec. rewrite submit_streaming_generation_closed. simpl.
    by apply lookup_app_l_Some.
  - by destruct (submit_save_frame k f st) as (-> & _).
  - by destruct (pop_save_status_frame k st) as (-> & _).
  - by destruct (clear_finished_generation_frame k st) as (-> & _).
  - destruct (_executor st !! i) as [j|] eqn:Hi;
      [|by rewrite run_job_at_idle].
    rewrite (run_job_at_taken i j st Hi), run_buffers_other; [done|].
    intros Hj.
    assert (Hq : a ∈ queued_buffers st).
    { apply list_elem_of_omap. exists j. split; [|done].
      by eapply list_elem_of_lookup_2. }
    rewrite (Hfresh a Hq) in Ha. by injection Ha as <-.
Qed.

(** X5.  Once a buffer is done, no later submission, poll, cleanup or worker
    step changes anything in it: its text, its error and its flags are
    what they were when it finished. *)
Theorem done_buffer_is_frozen (st : state) (a : addr) (b : StreamingBuffer.t)
    (evs : list event)
    (Hreach : reachable st)
    (Ha : buffers st !! a = Some b)
    (Hdone : StreamingBuffer.is_done b = true) :
  buffers (steps evs st) !! a = Some b.
Proof.
  induction evs as [|ev evs IH] using rev_ind; [done|].
  rewrite steps_snoc. apply done_buffer_step; [|done|done].
  apply reachable_queued_fresh. by apply reachable_steps.
Qed.

(** ** Who invokes the callables *)

Lemma step_calls (st : state) (ev : event) :
  calls (step st ev) = calls st ++ invoked st ev.
Proof.
  destruct ev as [k f sim d|k f|k|k f|k|k|k|k f|k|i]; cbn [step invoked];
    rewrite ?app_nil_r; try done.
  - by destruct (submit_save_frame k f st) as (_ & _ & _ & -> & _).
  - by destruct (pop_save_status_frame k st) as (_ & _ & _ & _ & _ & -> & _).
  - by destruct (clear_finished_generation_frame k st)
      as (_ & _ & _ & _ & _ & -> & _).
  - destruct (_executor st !! i) as [j|] eqn:Hi.
    + by rewrite (run_job_at_taken i j st Hi), run_calls.
    + by rewrite run_job_at_idle, app_nil_r.
Qed.

Lemma step_executor_length (st : state) (ev : event) :
  length (_executor (step st ev)) + length (invoked st ev)
  <= length (_executor st) + (if is_submission ev then 1 else 0).
Proof.
  destruct ev as [k f sim d|k f|k|k f|k|k|k|k f|k|i];
    cbn [step invoked is_submission].
  - unfold exec. rewrite submit_generation_closed. simpl.
    rewrite length_app. simpl. lia.
  - unfold exec. rewrite submit_streaming_generation_closed. simpl.
    rewrite length_app. simpl. lia.
  - unfold exec. simpl. lia.
  - destruct (submit_save_frame k f st)
      as (_ & _ & _ & _ & _ & [[-> _] | [-> _]]);
      rewrite ?length_app; simpl; lia.
  - unfold exec. simpl. lia.
  - destruct (pop_save_status_frame k st) as (_ & _ & _ & _ & -> & _).
    simpl. lia.
  - destruct (clear_finished_generation_frame k st)
      as (_ & _ & _ & _ & -> & _). simpl. lia.
  - unfold exec. simpl. rewrite length_app. simpl. lia.
  - unfold exec. simpl. lia.
  - destruct (_executor st !! i) as [j|] eqn:Hi.
    + rewrite (run_job_at_taken i j st Hi), run_executor. simpl.
      rewrite length_delete by (by eexists).
      apply lookup_lt_Some in Hi. lia.
    + rewrite run_job_at_idle by done. simpl. lia.
Qed.

Lemma submissions_snoc (evs : list event) (ev : event) :
  submissions (evs ++ [ev])
  = submissions evs + (if is_submission ev then 1 else 0).
Proof.
  unfold submissions. rewrite List.filter_app, length_app. simpl.
  by destruct (is_submission ev).
Qed.

(** X6.  The control thread never runs a callable: submitting, polling and
    cleaning up leave the call log as it is.  A worker step invokes the
    callable of the job it takes, once; draining the pool invokes the
    callable of every queued job once, in queue order.  So at any point of
    any history the callables invoked and the jobs still queued are
    together no more than the submissions made. *)
Theorem callables_run_once_by_workers (st : state) (ev : event)
    (evs : list event) :
  calls (step st ev) = calls st ++ invoked st ev
  /\ calls (drain st) = calls st ++ map job_fn (_executor st)
  /\ length (calls (steps evs initial))
     + length (_executor (steps evs initial)) <= submissions evs.
Proof.
  split; [apply step_calls|]. split; [apply drain_calls|].
  induction evs as [|e evs IH] using rev_ind; [done|].
  rewrite steps_snoc, submissions_snoc, step_calls, length_app.
  pose proof (step_executor_length (steps evs initial) e). lia.
Qed.

(** ** Keys do not interfere *)

Lemma run_history_results (j : job) (st : state) :
  _history_results (exec (run j) st)
  = match j with
    | history_run k f => <[k := history_result f]> (_history_results st)
    | _ => _history_results st
    end.
Proof. by run_cases j. Qed.

(** X7.  A call made for one key, or a job submitted under one key, changes
    nothing that the three registries hold under any other key. *)
Theorem other_keys_untouched (st : state) (ev : event) (k k' : string)
    (Hev : event_key ev = Some k
           \/ exists i j, ev = ev_worker i /\ _executor st !! i = Some j
                          /\ job_key j = k)
    (Hne : k <> k') :
  _generations (step st ev) !! k' = _generations st !! k'
  /\ _saves (step st ev) !! k' = _saves st !! k'
  /\ _history_results (step st ev) !! k' = _history_results st !! k'.
Proof.
  destruct Hev as [Hev | (i & j & -> & Hi & Hj)].
  - destruct ev as [k0 f sim d|k0 f|k0|k0 f|k0|k0|k0|k0 f|k0|i];
      simpl in Hev; try done; injection Hev as ->; cbn [step].
    + unfold exec. rewrite submit_generation_closed. simpl.
      by rewrite lookup_insert_ne.
    + unfold exec. rewrite submit_streaming_generation_closed. simpl.
      by rewrite lookup_insert_ne.
    + destruct (submit_save_frame k f st)
        as (_ & -> & -> & _ & _ & [[_ ->] | [_ ->]]);
        by rewrite ?lookup_insert_ne.
    + destruct (pop_save_status_frame k st)
        as (_ & _ & -> & -> & _ & _ & [-> | ->]);
        by rewrite ?lookup_delete_ne.
    + destruct (clear_finished_generation_frame k st)
        as (_ & _ & -> & -> & _ & _ & [-> | ->]);
        by rewrite ?lookup_delete_ne.
    + unfold exec. simpl. by rewrite lookup_delete_ne.
  - cbn [step]. rewrite (run_job_at_taken i j st Hi).
    rewrite run_generations, run_saves, run_history_results.
    destruct j; simpl in *; subst; by rewrite ?lookup_insert_ne.
Qed.

(** ** Completed submissions *)


(** X9.  A streaming source that raises after it has yielded some chunks: the
    buffer keeps the chunks that arrived, in order, and ends done with the
    exception's text as its error. *)
Theorem streaming_failure_keeps_partial_text (st : state) (k : string)
    (fs : callable generator) (chunks : list string) (e : Exception)
    (Hwf : wf st)
    (Hfs : fn_outcome fs = Returns (mkGenerator chunks (Some e))) :
  poll k (drain (exec (submit_streaming_generation k fs) st))
  = Some (fold_right String.append "" chunks, true, Some (str e)).
Proof.
  destruct (streaming_completes st k fs Hwf) as [Hk Hb].
  rewrite (poll_at _ _ _ _ Hk Hb). unfold streaming_effect. rewrite Hfs.
  simpl ending. simpl yields. cbv iota.
  unfold StreamingBuffer.read_all, StreamingBuffer.is_done,
    StreamingBuffer.error. simpl.
  change (Str.join "" (StreamingBuffer._chunks ?b))
    with (StreamingBuffer.read_all b).
  by rewrite read_all_append_all.
Qed.


(** X11.  A generation submitted again under the same key before the first one
    has run: both callables are invoked, the key ends with the text of the
    second, and the text of the first ends in a finished buffer that no
    key of the registry leads to. *)
Theorem replaced_generation_still_runs (st : state) (k : string)
    (f1 f2 : callable string) (t1 t2 : string) (d1 d2 : QArith_base.Q)
    (Hwf : wf st)
    (H1 : fn_outcome f1 = Returns t1)
    (H2 : fn_outcome f2 = Returns t2) :
  let old := length (buffers st) in
  let st' := drain (exec (submit_generation k f2 false d2)
                      (exec (submit_generation k f1 false d1) st)) in
  poll k st' = Some (t2, true, None)
  /\ (exists b, buffers st' !! old = Some b
                /\ StreamingBuffer.read_all b = t1
                /\ StreamingBuffer.is_done b = true)
  /\ (forall k', _generations st' !! k' <> Some old)
  /\ calls st'
     = calls st ++ map job_fn (_executor st) ++ [fn_id f1; fn_id f2].
Proof.
  intros old st'.
  assert (Hwf1 : wf (exec (submit_generation k f1 false d1) st))
    by exact (wf_step (ev_submit_generation k f1 false d1) st Hwf).
  assert (Hone : forall f t d,
             fn_outcome f = Returns t ->
             let b := generation_effect f false d StreamingBuffer.__init__ in
             StreamingBuffer.read_all b = t
             /\ StreamingBuffer.is_done b = true
             /\ StreamingBuffer.error b = None).
  { intros f t d Hf. unfold generation_effect. rewrite Hf. simpl.
    by destruct t. }
  destruct (generation_completes _ k f2 false d2 Hwf1) as [Hk Hb].
  split; [|split; [|split]].
  - unfold st'. rewrite (poll_at _ _ _ _ Hk Hb).
    destruct (Hone f2 t2 d2 H2) as (Hr & Hd & He). cbv zeta in Hr, Hd, He.
    by rewrite Hr, Hd, He.
  - exists (generation_effect f1 false d1 StreamingBuffer.__init__).
    split; [|by destruct (Hone f1 t1 d1 H1) as (Hr & Hd & _)].
    unfold st', old. rewrite drain_run_all. unfold exec at 2 3. simpl.
    rewrite !run_all_app, !run_all_singleton.
    rewrite run_buffers_other
      by (simpl; rewrite length_app; simpl; intros [=]; lia).
    rewrite run_buffers. rewrite list_lookup_alter_eq.
    rewrite run_all_buffers_other.
    + simpl. rewrite (lookup_app_l _ [_]) by (rewrite length_app; simpl; lia).
      by rewrite list_lookup_middle.
    + intros j Hj Hbj. pose proof (wf_job_buffer st Hwf j _ Hj Hbj). lia.
  - intros k' Hk'. unfold st' in Hk'.
    rewrite drain_run_all, run_all_generations in Hk'.
    unfold exec in Hk'. simpl in Hk'. rewrite insert_insert_eq in Hk'.
    apply lookup_insert_Some in Hk' as [[_ Hk'] | [_ Hk']].
    + rewrite length_app in Hk'. simpl in Hk'. unfold old in Hk'. lia.
    + pose proof (wf_generations st Hwf _ _ Hk'). unfold old in *. lia.
  - unfold st'. rewrite drain_calls. unfold exec. simpl.
    by rewrite <- app_assoc, map_app.
Qed.



(** ** Instances of the properties above *)

Lemma typing_stage_stays_thinking_witness :
  let fs := mkCallable 0 (Returns (mkGenerator ["Hel"; "lo"] None)) in
  let st := steps [ev_submit_streaming_generation "m" fs; ev_worker 0]
              initial in
  exists b, buffers st !! 0 = Some b
            /\ StreamingBuffer.read_all b = "Hello"
            /\ StreamingBuffer.typing_stage b = thinking.
Proof.
  intros fs st.
  assert (Hreach : reachable st) by (by eexists).
  eexists. split; [reflexivity|]. split; [reflexivity|].
  exact (typing_stage_stays_thinking st 0 _ Hreach eq_refl).
Defined.

Lemma reachable_error_implies_done_witness :
  let f := mkCallable 0 (Raises (Exc "boom")) in
  let st := steps [ev_submit_generation "m" f false (QArith_base.Qmake 1 20);
                   ev_worker 0] initial in
  exists b, buffers st !! 0 = Some b
            /\ StreamingBuffer.error b = Some "boom"
            /\ StreamingBuffer.is_done b = true.
Proof.
  intros f st.
  assert (Hreach : reachable st) by (by eexists).
  eexists. split; [reflexivity|]. split; [reflexivity|].
  apply (reachable_error_implies_done st 0 _ Hreach eq_refl). discriminate.
Defined.

Lemma done_buffer_is_frozen_witness :
  let f := mkCallable 0 (Returns "first") in
  let g := mkCallable 1 (Returns "second") in
  let d := QArith_base.Qmake 1 20 in
  let st := steps [ev_submit_generation "m" f false d; ev_worker 0] initial in
  let later := [ev_submit_generation "m" g true d; ev_worker 0;
                ev_clear_finished_generation "m"; ev_pop_save_status "m"] in
  exists b, buffers st !! 0 = Some b
            /\ StreamingBuffer.is_done b = true
            /\ StreamingBuffer.read_all b = "first"
            /\ buffers (steps later st) !! 0 = Some b.
Proof.
  intros f g d st later.
  assert (Hreach : reachable st) by (by eexists).
  eexists. split; [reflexivity|]. split; [reflexivity|].
  split; [reflexivity|].
  exact (done_buffer_is_frozen st 0 _ later Hreach eq_refl eq_refl).
Defined.

Lemma other_keys_untouched_witness :
  let f := mkCallable 0 (Returns tt) in
  let st := steps [ev_submit_save "a" f; ev_submit_save "b" f] initial in
  _executor st !! 0 = Some (save_run "a" 0 f)
  /\ _saves (step st (ev_worker 0)) !! "b" = _saves st !! "b"
  /\ _saves (step st (ev_pop_save_status "a")) !! "b" = _saves st !! "b".
Proof.
  intros f st.
  assert (H0 : _executor st !! 0 = Some (save_run "a" 0 f)) by reflexivity.
  split; [exact H0|]. split.
  - refine (proj1 (proj2 (other_keys_untouched st (ev_worker 0) "a" "b"
                            _ ltac:(discriminate)))).
    right. by exists 0, (save_run "a" 0 f).
  - exact (proj1 (proj2 (other_keys_untouched st (ev_pop_save_status "a")
                           "a" "b" (or_introl eq_refl)
                           ltac:(discriminate)))).
Defined.

Lemma streaming_failure_keeps_partial_text_witness :
  let fs := mkCallable 0
              (Returns (mkGenerator ["Hel"; "lo"] (Some (Exc "reset")))) in
  poll "m" (drain (exec (submit_streaming_generation "m" fs) initial))
  = Some ("Hello", true, Some "reset").
Proof.
  intros fs.
  exact (streaming_failure_keeps_partial_text initial "m" fs ["Hel"; "lo"]
           (Exc "reset") wf_initial eq_refl).
Defined.


Lemma replaced_generation_still_runs_witness :
  let f1 := mkCallable 0 (Returns "first") in
  let f2 := mkCallable 1 (Returns "second") in
  let d := QArith_base.Qmake 1 20 in
  let st' := drain (exec (submit_generation "m" f2 false d)
                      (exec (submit_generation "m" f1 false d) initial)) in
  poll "m" st' = Some ("second", true, None)
  /\ (exists b, buffers st' !! 0 = Some b
                /\ StreamingBuffer.read_all b = "first"
                /\ StreamingBuffer.is_done b = true)
  /\ calls st' = [0; 1].
Proof.
  intros f1 f2 d st'.
  destruct (replaced_generation_still_runs initial "m" f1 f2 "first" "second"
              d d wf_initial eq_refl eq_refl) as (H1 & H2 & _ & H4).
  split; [exact H1|]. split; [exact H2 | exact H4].
Defined.


(** * Properties of the table formatter *)

(** ** Strings: membership, counting, splitting and joining *)

Lemma contains_count (c : ascii) (s : string) :
  Py.contains c s = (1 <=? Py.count c s).
Proof.
  induction s as [|x s IH]; [done|]. simpl.
  destruct (Ascii.eqb x c); [done|]. by rewrite IH.
Qed.

Lemma contains_append (c : ascii) (a b : string) :
  Py.contains c (a +:+ b) = Py.contains c a || Py.contains c b.
Proof.
  induction a as [|x a IH]; [done|]. rewrite append_cons. simpl.
  by rewrite IH, orb_assoc.
Qed.

Lemma split_cons_eq (c x : ascii) (s : string) :
  Py.split c (String x s)
  = if Ascii.eqb x c then EmptyString :: Py.split c s
    else match Py.split c s with
         | w :: ws => String x w :: ws
         | [] => [String x EmptyString]
         end.
Proof. reflexivity. Qed.

Lemma split_not_nil (c : ascii) (s : string) : Py.split c s <> [].
Proof.
  induction s as [|x s IH]; [done|]. rewrite split_cons_eq.
  destruct (Ascii.eqb x c); [done|]. by destruct (Py.split c s).
Qed.

Lemma split_length (c : ascii) (s : string) :
  length (Py.split c s) = S (Py.count c s).
Proof.
  induction s as [|x s IH]; [done|]. rewrite split_cons_eq. simpl.
  destruct (Ascii.eqb x c); simpl; [by rewrite IH|].
  pose proof (split_not_nil c s).
  destruct (Py.split c s); [done|]. simpl in *. lia.
Qed.

Lemma split_pieces_free (c : ascii) (s : string) :
  Forall (fun p => Py.contains c p = false) (Py.split c s).
Proof.
  induction s as [|x s IH]; [by repeat constructor|].
  rewrite split_cons_eq.
  destruct (Ascii.eqb x c) eqn:Hx; [by constructor|].
  destruct (Py.split c s) as [|w ws]; [by repeat constructor; simpl; rewrite Hx|].
  inversion IH; subst. constructor; [|done]. simpl. by rewrite Hx.
Qed.

Lemma split_keeps_free (t c : ascii) (s : string) :
  Py.contains t s = false ->
  Forall (fun p => Py.contains t p = false) (Py.split c s).
Proof.
  induction s as [|x s IH]; intros Hs; [by repeat constructor|].
  simpl in Hs. apply orb_false_iff in Hs as [Hx Hs].
  rewrite split_cons_eq. specialize (IH Hs).
  destruct (Ascii.eqb x c); [by constructor|].
  destruct (Py.split c s) as [|w ws];
    [by repeat constructor; simpl; rewrite Hx|].
  inversion IH; subst. constructor; [|done]. simpl. rewrite Hx. done.
Qed.

Lemma join_one (sep x : string) : Str.join sep [x] = x.
Proof. reflexivity. Qed.

Lemma join_two (sep x y : string) (l : list string) :
  Str.join sep (x :: y :: l) = x +:+ sep +:+ Str.join sep (y :: l).
Proof. reflexivity. Qed.

Lemma join_split (c : ascii) (s : string) :
  Str.join (String c EmptyString) (Py.split c s) = s.
Proof.
  induction s as [|x s IH]; [done|]. rewrite split_cons_eq.
  destruct (Ascii.eqb_spec x c) as [->|Hx].
  - pose proof (split_not_nil c s).
    destruct (Py.split c s) as [|w ws]; [done|].
    rewrite join_two, IH. reflexivity.
  - pose proof (split_not_nil c s).
    destruct (Py.split c s) as [|w ws]; [done|].
    destruct ws as [|w' ws].
    + rewrite join_one in *. by rewrite IH.
    + rewrite join_two in *. rewrite append_cons. by rewrite IH.
Qed.

Lemma split_free (c : ascii) (s : string) :
  Py.contains c s = false -> Py.split c s = [s].
Proof.
  induction s as [|x s IH]; intros Hs; [done|].
  simpl in Hs. apply orb_false_iff in Hs as [Hx Hs].
  rewrite split_cons_eq, Hx, (IH Hs). done.
Qed.

Lemma split_append_sep (c : ascii) (a b : string) :
  Py.contains c a = false ->
  Py.split c (a +:+ String c b) = a :: Py.split c b.
Proof.
  induction a as [|x a IH]; intros Ha.
  - simpl. by rewrite Ascii.eqb_refl.
  - simpl in Ha. apply orb_false_iff in Ha as [Hx Ha].
    rewrite append_cons, split_cons_eq, Hx, (IH Ha). done.
Qed.

Lemma split_join (c : ascii) (ls : list string) :
  ls <> [] ->
  Forall (fun p => Py.contains c p = false) ls ->
  Py.split c (Str.join (String c EmptyString) ls) = ls.
Proof.
  induction ls as [|x ls IH]; intros Hne Hfree; [done|].
  inversion Hfree as [|? ? Hx Hls]; subst.
  destruct ls as [|y ls].
  - rewrite join_one. by apply split_free.
  - rewrite join_two, append_cons.
    change (EmptyString +:+ ?z) with z.
    rewrite (split_append_sep c x _ Hx). f_equal. by apply IH.
Qed.

Lemma contains_join (t : ascii) (sep : string) (ls : list string) :
  Py.contains t sep = false ->
  Forall (fun p => Py.contains t p = false) ls ->
  Py.contains t (Str.join sep ls) = false.
Proof.
  intros Hsep. induction ls as [|x ls IH]; intros Hls; [done|].
  inversion Hls as [|? ? Hx Hls']; subst.
  destruct ls as [|y ls]; [by rewrite join_one|].
  rewrite join_two, !contains_append, Hx, Hsep. by apply IH.
Qed.

(** ** Row detection *)

(** X13.  A line is a TSV row exactly when it contains a tab (the column
    count of the split adds nothing); a line has one more column than it
    has tabs; a block of one row is converted exactly when the row has at
    least two tabs, and a block of two or more rows always. *)
Theorem tsv_row_detection (line second : string) (more : list string) :
  _is_tsv_row line = (1 <=? Py.count Py.tab line)
  /\ length (Py.split Py.tab line) = S (Py.count Py.tab line)
  /\ _should_convert_block [line] = Some (2 <=? Py.count Py.tab line)
  /\ _should_convert_block (line :: second :: more) = Some true.
Proof.
  split; [|split; [apply split_length|split; [|done]]].
  - unfold _is_tsv_row. rewrite contains_count, split_length.
    by destruct (Py.count Py.tab line).
  - unfold _should_convert_block. simpl. by rewrite split_length.
Qed.

(** ** Escaping *)

Lemma escape_cons (c : ascii) (s : string) :
  _escape_markdown_cell (String c s)
  = if Ascii.eqb c Py.pipe
    then String Py.backslash (String Py.pipe (_escape_markdown_cell s))
    else String c (_escape_markdown_cell s).
Proof.
  unfold _escape_markdown_cell. simpl. by destruct (Ascii.eqb c Py.pipe).
Qed.

Lemma escape_no_leading_pipe (s r : string) :
  _escape_markdown_cell s <> String Py.pipe r.
Proof.
  destruct s as [|c s]; [done|]. rewrite escape_cons.
  destruct (Ascii.eqb_spec c Py.pipe) as [->|Hc]; [done|].
  intros [= -> _]. done.
Qed.

Lemma escape_injective (s1 s2 : string) :
  _escape_markdown_cell s1 = _escape_markdown_cell s2 -> s1 = s2.
Proof.
  revert s2. induction s1 as [|c1 s1 IH]; intros [|c2 s2].
  - done.
  - rewrite escape_cons. by destruct (Ascii.eqb c2 Py.pipe).
  - rewrite escape_cons. by destruct (Ascii.eqb c1 Py.pipe).
  - rewrite !escape_cons.
    destruct (Ascii.eqb_spec c1 Py.pipe) as [->|H1];
      destruct (Ascii.eqb_spec c2 Py.pipe) as [->|H2].
    + intros [= H]. by rewrite (IH _ H).
    + intros [= <- H]. symmetry in H. by apply escape_no_leading_pipe in H.
    + intros [= -> H]. by apply escape_no_leading_pipe in H.
    + intros [= -> H]. by rewrite (IH _ H).
Qed.

Lemma escape_pipes_escaped (b : bool) (s : string) :
  pipes_escaped b (_escape_markdown_cell s) = true.
Proof.
  revert b. induction s as [|c s IH]; intros b; [done|].
  rewrite escape_cons. destruct (Ascii.eqb c Py.pipe) eqn:Hc.
  - simpl. apply IH.
  - simpl. rewrite Hc. simpl. apply IH.
Qed.

Lemma escape_free (s : string) :
  Py.contains Py.pipe s = false -> _escape_markdown_cell s = s.
Proof.
  induction s as [|c s IH]; intros Hs; [done|].
  simpl in Hs. apply orb_false_iff in Hs as [Hc Hs].
  by rewrite escape_cons, Hc, (IH Hs).
Qed.

Lemma escape_length (s : string) :
  String.length (_escape_markdown_cell s)
  = String.length s + Py.count Py.pipe s.
Proof.
  induction s as [|c s IH]; [done|]. rewrite escape_cons. simpl.
  destruct (Ascii.eqb c Py.pipe); simpl; rewrite IH; lia.
Qed.

(** X14.  In an escaped cell every ["|"] comes right after a backslash; a
    cell without ["|"] is left as it is; the escaped cell is longer by
    the number of ["|"] in the cell; and two different cells never escape
    to the same text. *)
Theorem escape_markdown_cell_properties (text other : string) :
  pipes_escaped false (_escape_markdown_cell text) = true
  /\ (Py.contains Py.pipe text = false -> _escape_markdown_cell text = text)
  /\ String.length (_escape_markdown_cell text)
     = String.length text + Py.count Py.pipe text
  /\ (_escape_markdown_cell text = _escape_markdown_cell other ->
      text = other).
Proof.
  split; [apply escape_pipes_escaped|]. split; [apply escape_free|].
  split; [apply escape_length | apply escape_injective].
Qed.

Lemma escape_markdown_cell_properties_witness :
  Py.contains Py.pipe "a b" = false
  /\ _escape_markdown_cell "a b" = "a b"
  /\ _escape_markdown_cell "a|b" = _escape_markdown_cell "a|b"
  /\ "a|b" = "a|b"
  /\ String.length (_escape_markdown_cell "a|b") = 4.
Proof.
  destruct (escape_markdown_cell_properties "a b" "a b") as (_ & H2 & _ & _).
  destruct (escape_markdown_cell_properties "a|b" "a|b") as (_ & _ & H3 & H4).
  assert (H0 : Py.contains Py.pipe "a b" = false) by reflexivity.
  split; [exact H0|]. split; [exact (H2 H0)|].
  split; [reflexivity|]. split; [exact (H4 eq_refl) | exact H3].
Defined.

(** ** Cells keep out the separators *)

Lemma lstrip_free (t : ascii) (s : string) :
  Py.contains t s = false -> Py.contains t (Py.lstrip s) = false.
Proof.
  induction s as [|c s IH]; intros Hs; [done|]. simpl.
  destruct (Py.isspace c); [|done].
  simpl in Hs. apply orb_false_iff in Hs as [_ Hs]. by apply IH.
Qed.

Lemma rstrip_free (t : ascii) (s : string) :
  Py.contains t s = false -> Py.contains t (Py.rstrip s) = false.
Proof.
  induction s as [|c s IH]; intros Hs; [done|].
  simpl in Hs. apply orb_false_iff in Hs as [Hc Hs]. specialize (IH Hs).
  simpl. destruct (Py.rstrip s) as [|x r].
  - destruct (Py.isspace c); [done|]. simpl. by rewrite Hc.
  - simpl in *. by rewrite Hc.
Qed.

Lemma strip_free (t : ascii) (s : string) :
  Py.contains t s = false -> Py.contains t (Py.strip s) = false.
Proof. intros Hs. by apply rstrip_free, lstrip_free. Qed.

Lemma contains_cons (t x : ascii) (r : string) :
  Py.contains t (String x r) = Ascii.eqb x t || Py.contains t r.
Proof. reflexivity. Qed.

Lemma escape_keeps_free (t : ascii) (s : string) :
  t <> Py.pipe -> t <> Py.backslash ->
  Py.contains t s = false -> Py.contains t (_escape_markdown_cell s) = false.
Proof.
  intros Hp Hb.
  assert (Hp' : Ascii.eqb Py.pipe t = false) by (by apply Ascii.eqb_neq).
  assert (Hb' : Ascii.eqb Py.backslash t = false)
    by (by apply Ascii.eqb_neq).
  induction s as [|c s IH]; intros Hs; [done|].
  rewrite contains_cons in Hs. apply orb_false_iff in Hs as [Hc Hs].
  specialize (IH Hs).
  rewrite escape_cons. destruct (Ascii.eqb c Py.pipe).
  - by rewrite !contains_cons, Hb', Hp', IH.
  - by rewrite contains_cons, Hc, IH.
Qed.

Lemma md_row_free (t : ascii) (cells : list string) :
  Py.contains t "| " = false -> Py.contains t " | " = false ->
  Py.contains t " |" = false ->
  Forall (fun p => Py.contains t p = false) cells ->
  Py.contains t (md_row cells) = false.
Proof.
  intros H1 H2 H3 Hc. unfold md_row.
  rewrite !contains_append, H1, H3, contains_join; done.
Qed.

(** ** Converting a block *)

Lemma max_list_cons (x : nat) (l : list nat) :
  max_list (x :: l) = x `max` max_list l.
Proof. reflexivity. Qed.

Lemma max_list_map_S (l : list nat) :
  l <> [] -> max_list (map S l) = S (max_list l).
Proof.
  induction l as [|x l IH]; intros Hne; [done|].
  destruct l as [|y l]; [simpl; lia|].
  rewrite map_cons, !max_list_cons, IH by done. rewrite max_list_cons. lia.
Qed.

Lemma tsv_rows_lengths (block : list string) :
  map length (tsv_rows block) = map S (map (Py.count Py.tab) block).
Proof.
  unfold tsv_rows. rewrite !map_map. apply map_ext. intros line.
  by rewrite length_map, split_length.
Qed.

Lemma tsv_max_cols_count (block : list string) :
  block <> [] ->
  tsv_max_cols (tsv_rows block) = S (max_list (map (Py.count Py.tab) block)).
Proof.
  intros Hne. unfold tsv_max_cols.
  destruct (tsv_rows block) as [|r rows] eqn:Hr.
  - by destruct block.
  - rewrite <- Hr, tsv_rows_lengths. apply max_list_map_S.
    by destruct block.
Qed.

Lemma max_tabs_positive (block : list string) :
  Exists (fun line => Py.contains Py.tab line = true) block ->
  1 <= max_list (map (Py.count Py.tab) block).
Proof.
  induction 1 as [line block Hline | line block _ IH].
  - rewrite contains_count in Hline. apply Nat.leb_le in Hline.
    rewrite map_cons, max_list_cons. lia.
  - rewrite map_cons, max_list_cons. lia.
Qed.

Lemma tsv_norm_rows_lengths (block : list string) :
  Forall (fun row => length row = tsv_max_cols (tsv_rows block))
         (tsv_norm_rows (tsv_max_cols (tsv_rows block)) (tsv_rows block)).
Proof.
  unfold tsv_norm_rows. apply Forall_map, Forall_forall. intros r Hr. simpl.
  rewrite length_map, length_app, length_replicate.
  assert (length r <= tsv_max_cols (tsv_rows block)); [|lia].
  unfold tsv_max_cols. destruct (tsv_rows block) as [|r0 rows] eqn:Hrows.
  - by apply elem_of_nil in Hr.
  - apply max_list_elem_of_le. apply list_elem_of_fmap. by exists r.
Qed.

Lemma convert_closed (block : list string) :
  Exists (fun line => Py.contains Py.tab line = true) block ->
  exists header body,
    tsv_norm_rows (tsv_max_cols (tsv_rows block)) (tsv_rows block)
    = header :: body
    /\ _convert_tsv_block_to_markdown block
       = Some (Str.join nl
                 (md_row header
                  :: md_row (replicate (tsv_max_cols (tsv_rows block)) "---")
                  :: map md_row body)).
Proof.
  intros Htab.
  assert (Hne : block <> []) by (by destruct Htab).
  pose proof (max_tabs_positive block Htab) as Hpos.
  pose proof (tsv_max_cols_count block Hne) as Hmax.
  unfold _convert_tsv_block_to_markdown.
  destruct (tsv_max_cols (tsv_rows block) <=? 1) eqn:Hle.
  { apply Nat.leb_le in Hle. lia. }
  destruct (tsv_norm_rows (tsv_max_cols (tsv_rows block)) (tsv_rows block))
    as [|header body] eqn:Hnorm.
  { destruct block; [done|]. discriminate Hnorm. }
  exists header, body. split; [done|]. simpl.
  by destruct body as [|row body].
Qed.

Lemma norm_cells_free (t : ascii) (block : list string) (n : nat) :
  t <> Py.pipe -> t <> Py.backslash ->
  (t = Py.tab \/ Forall (fun line => Py.contains t line = false) block) ->
  Forall (Forall (fun cell => Py.contains t cell = false))
         (tsv_norm_rows n (tsv_rows block)).
Proof.
  intros Hp Hb Hcase. unfold tsv_norm_rows, tsv_rows.
  rewrite map_map. apply Forall_map, Forall_forall. intros line Hline. simpl.
  apply Forall_map, Forall_app. split.
  - apply Forall_map.
    assert (Hpieces : Forall (fun p => Py.contains t p = false)
                        (Py.split Py.tab line)).
    { destruct Hcase as [-> | Hfree]; [apply split_pieces_free|].
      apply split_keeps_free. by eapply Forall_forall in Hfree. }
    eapply Forall_impl; [exact Hpieces|]. intros p Hpfree. simpl.
    by apply escape_keeps_free, strip_free.
  - apply Forall_replicate. by apply escape_keeps_free.
Qed.

Lemma md_lines_free (t : ascii) (n : nat) (rows : list (list string)) :
  Py.contains t "| " = false -> Py.contains t " | " = false ->
  Py.contains t " |" = false -> Py.contains t "---" = false ->
  Forall (Forall (fun cell => Py.contains t cell = false)) rows ->
  Forall (fun l => Py.contains t l = false)
         (match rows with
          | header :: body =>
              md_row header :: md_row (replicate n "---") :: map md_row body
          | [] => []
          end).
Proof.
  intros H1 H2 H3 H4 Hrows. destruct rows as [|header body]; [done|].
  inversion Hrows as [|? ? Hh Hb]; subst.
  constructor; [by apply md_row_free|].
  constructor; [apply md_row_free; try done; by apply Forall_replicate|].
  apply Forall_map. eapply Forall_impl; [exact Hb|].
  intros row Hrow. by apply md_row_free.
Qed.

(** X15.  A block in which some line has a tab becomes a rectangular table:
    with [n] one more than the largest number of tabs in a line, the
    header and every body row have exactly [n] cells (shorter rows are
    padded with empty cells), the separator row has [n] cells ["---"],
    there is one body row for each line after the first, and no tab is
    left in the result. *)
Theorem convert_block_is_rectangular (block : list string)
    (Htab : Exists (fun line => Py.contains Py.tab line = true) block) :
  let n := S (max_list (map (Py.count Py.tab) block)) in
  exists header body out,
    tsv_norm_rows n (tsv_rows block) = header :: body
    /\ _convert_tsv_block_to_markdown block = Some out
    /\ out = Str.join nl (md_row header :: md_row (replicate n "---")
                          :: map md_row body)
    /\ 2 <= n
    /\ Forall (fun row => length row = n) (header :: body)
    /\ length body = length block - 1
    /\ Py.contains Py.tab out = false.
Proof.
  intros n.
  assert (Hne : block <> []) by (by destruct Htab).
  pose proof (max_tabs_positive block Htab) as Hpos.
  pose proof (tsv_max_cols_count block Hne) as Hmax. fold n in Hmax.
  destruct (convert_closed block Htab) as (header & body & Hnorm & Hconv).
  rewrite Hmax in Hnorm, Hconv.
  exists header, body. eexists. split; [exact Hnorm|].
  split; [exact Hconv|]. split; [reflexivity|].
  split; [unfold n; lia|]. split; [|split].
  - pose proof (tsv_norm_rows_lengths block) as Hlen.
    by rewrite Hmax, Hnorm in Hlen.
  - assert (Hl : length (tsv_norm_rows n (tsv_rows block)) = length block).
    { unfold tsv_norm_rows, tsv_rows. by rewrite !length_map. }
    rewrite Hnorm in Hl. simpl in Hl. lia.
  - apply contains_join; [done|].
    pose proof (norm_cells_free Py.tab block n) as Hcells.
    rewrite Hnorm in Hcells.
    apply (md_lines_free Py.tab n (header :: body)); try done.
    apply Hcells; try done. by left.
Qed.

(** ** Scanning the lines *)

Lemma is_tsv_row_contains (line : string) :
  _is_tsv_row line = Py.contains Py.tab line.
Proof.
  unfold _is_tsv_row. rewrite split_length, contains_count.
  by destruct (Py.count Py.tab line).
Qed.

Lemma convert_tab_free (block : list string) :
  Exists (fun line => Py.contains Py.tab line = true) block ->
  exists out, _convert_tsv_block_to_markdown block = Some out
              /\ Py.contains Py.tab out = false.
Proof.
  intros Htab.
  destruct (convert_closed block Htab) as (header & body & Hnorm & Hconv).
  eexists. split; [exact Hconv|].
  apply contains_join; [done|].
  pose proof (norm_cells_free Py.tab block (tsv_max_cols (tsv_rows block)))
    as Hcells.
  rewrite Hnorm in Hcells.
  apply (md_lines_free Py.tab _ (header :: body)); try done.
  apply Hcells; try done. by left.
Qed.

Lemma tsv_run_spec (rest : list string) :
  let '(more, after) := tsv_run rest in
  rest = more ++ after
  /\ Forall (fun l => _is_tsv_row l = true) more
  /\ match after with
     | next :: _ => _is_tsv_row next = false
     | [] => True
     end.
Proof.
  induction rest as [|line rest IH]; [done|]. simpl.
  destruct (_is_tsv_row line) eqn:Hline.
  - destruct (tsv_run rest) as [more after].
    destruct IH as (-> & Hmore & Hafter).
    split; [done|]. split; [by constructor | done].
  - by rewrite Hline.
Qed.

Lemma settled_plain (ls : list string) :
  Forall (fun l => _is_tsv_row l = false) ls -> settled ls = true.
Proof.
  induction 1 as [|l ls Hl _ IH]; [done|]. simpl. by rewrite Hl, IH.
Qed.

Lemma settled_app (acc ls : list string) :
  settled acc = true -> settled ls = true ->
  (forall a, last acc = Some a -> _is_tsv_row a = true ->
             match ls with
             | next :: _ => _is_tsv_row next = false
             | [] => True
             end) ->
  settled (acc ++ ls) = true.
Proof.
  induction acc as [|a acc IH]; intros Hacc Hls Hlast; [done|].
  simpl in Hacc. apply andb_true_iff in Hacc as [Ha Hacc].
  rewrite <- app_comm_cons. simpl.
  rewrite IH; [|done|done|]; cycle 1.
  { intros b Hb. apply Hlast. destruct acc; [done|].
    by rewrite last_cons_cons. }
  rewrite andb_true_r.
  destruct (_is_tsv_row a) eqn:Hrow; [|done].
  apply andb_true_iff in Ha as [Hcount Hnext]. rewrite Hcount. simpl.
  destruct acc as [|b acc]; [|done]. simpl.
  specialize (Hlast a eq_refl Hrow). destruct ls; [done|].
  by rewrite Hlast.
Qed.

Lemma plain_lines_tsv (more after : list string) :
  Forall (fun l => _is_tsv_row l = true) more ->
  plain_lines (more ++ after) = plain_lines after.
Proof.
  induction 1 as [|l more Hl _ IH]; [done|].
  rewrite <- app_comm_cons. unfold plain_lines in *.
  rewrite filter_cons_False; [done|]. by rewrite Hl.
Qed.

(** What a converted block appends: the lines of the table, with an empty
    line before and after where the neighbouring line is not blank. *)
Lemma table_append (acc after : list string) (md_block : string) :
  exists pre post,
    match after with
    | next :: _ =>
        if Str.truthy (Py.strip next)
        then (match last acc with
              | Some l => if Str.truthy (Py.strip l)
                          then acc ++ [EmptyString] else acc
              | None => acc
              end ++ Py.split Py.newline md_block) ++ [EmptyString]
        else match last acc with
             | Some l => if Str.truthy (Py.strip l)
                         then acc ++ [EmptyString] else acc
             | None => acc
             end ++ Py.split Py.newline md_block
    | [] => match last acc with
            | Some l => if Str.truthy (Py.strip l)
                        then acc ++ [EmptyString] else acc
            | None => acc
            end ++ Py.split Py.newline md_block
    end = acc ++ pre ++ Py.split Py.newline md_block ++ post
    /\ (pre = [] \/ pre = [EmptyString])
    /\ (post = [] \/ post = [EmptyString]).
Proof.
  assert (Hpre : exists pre,
             match last acc with
             | Some l => if Str.truthy (Py.strip l)
                         then acc ++ [EmptyString] else acc
             | None => acc
             end = acc ++ pre /\ (pre = [] \/ pre = [EmptyString])).
  { destruct (last acc) as [l|]; [destruct (Str.truthy (Py.strip l))|].
    - exists [EmptyString]. split; [done | by right].
    - exists []. split; [by rewrite app_nil_r | by left].
    - exists []. split; [by rewrite app_nil_r | by left]. }
  destruct Hpre as (pre & -> & Hpre).
  destruct after as [|next after]; [|destruct (Str.truthy (Py.strip next))].
  - exists pre, []. rewrite app_nil_r, <- app_assoc. split; [done|].
    split; [done | by left].
  - exists pre, [EmptyString]. rewrite <- !app_assoc. split; [done|].
    split; [done | by right].
  - exists pre, []. rewrite app_nil_r, <- app_assoc. split; [done|].
    split; [done | by left].
Qed.

Lemma scan_plain (r : nat) (line : string) (rest acc : list string) :
  _is_tsv_row line = false ->
  scan (S r) (line :: rest) acc = scan r rest (acc ++ [line]).
Proof. intros H. simpl. by rewrite H. Qed.

Lemma scan_keep (r : nat) (line : string) (rest acc more after : list string) :
  _is_tsv_row line = true -> tsv_run rest = (more, after) ->
  _should_convert_block (line :: more) = Some false ->
  scan (S r) (line :: rest) acc = scan r after (acc ++ line :: more).
Proof. intros H1 H2 H3. cbn [scan]. by rewrite H1, H2, H3. Qed.

Lemma scan_table (r : nat) (line : string) (rest acc more after : list string)
    (md_block : string) :
  _is_tsv_row line = true -> tsv_run rest = (more, after) ->
  _should_convert_block (line :: more) = Some true ->
  _convert_tsv_block_to_markdown (line :: more) = Some md_block ->
  scan (S r) (line :: rest) acc
  = scan r after
      match after with
      | next :: _ =>
          if Str.truthy (Py.strip next)
          then (match last acc with
                | Some l => if Str.truthy (Py.strip l)
                            then acc ++ [EmptyString] else acc
                | None => acc
                end ++ Py.split Py.newline md_block) ++ [EmptyString]
          else match last acc with
               | Some l => if Str.truthy (Py.strip l)
                           then acc ++ [EmptyString] else acc
               | None => acc
               end ++ Py.split Py.newline md_block
      | [] => match last acc with
              | Some l => if Str.truthy (Py.strip l)
                          then acc ++ [EmptyString] else acc
              | None => acc
              end ++ Py.split Py.newline md_block
      end.
Proof.
  intros H1 H2 H3 H4. cbn [scan]. rewrite H1, H2, H3. simpl.
  rewrite H4. simpl. by destruct after.
Qed.

Lemma should_convert_block_cases (line : string) (more : list string) :
  (_should_convert_block (line :: more) = Some true)
  \/ (_should_convert_block (line :: more) = Some false
      /\ more = [] /\ (2 <=? Py.count Py.tab line) = false).
Proof.
  destruct more as [|m more]; [|by left].
  unfold _should_convert_block. simpl. rewrite split_length.
  destruct (Py.count Py.tab line) as [|[|n]]; simpl;
    first [by left | by right].
Qed.

Lemma last_app_nonempty (acc ls : list string) (a : string) :
  ls <> [] -> last (acc ++ ls) = Some a -> a ∈ ls.
Proof.
  intros Hne Hlast. rewrite last_app in Hlast.
  destruct (last ls) as [y|] eqn:Hy.
  - injection Hlast as <-. by apply last_Some_elem_of.
  - by apply last_None in Hy.
Qed.

Lemma scan_result (rounds : nat) (lines acc : list string) :
  length lines <= rounds ->
  settled acc = true ->
  (forall a, last acc = Some a -> _is_tsv_row a = true ->
             match lines with
             | next :: _ => _is_tsv_row next = false
             | [] => True
             end) ->
  Forall (fun l => Py.contains Py.newline l = false) lines ->
  exists added,
    scan rounds lines acc = Some (acc ++ added)
    /\ settled (acc ++ added) = true
    /\ (Forall (fun l => Py.contains Py.newline l = false) acc ->
        Forall (fun l => Py.contains Py.newline l = false) (acc ++ added))
    /\ (lines <> [] -> added <> [])
    /\ plain_lines lines `sublist_of` added.
Proof.
  revert lines acc. induction rounds as [|r IH]; intros lines acc Hlen Hacc Hlast Hnl.
  { destruct lines; [|simpl in Hlen; lia].
    exists []. rewrite app_nil_r. by repeat split. }
  destruct lines as [|line rest].
  { exists []. rewrite app_nil_r. by repeat split. }
  simpl in Hlen. inversion Hnl as [|? ? Hline_nl Hrest_nl]; subst.
  destruct (_is_tsv_row line) eqn:Hrow.
  - pose proof (tsv_run_spec rest) as Hspec.
    destruct (tsv_run rest) as [more after] eqn:Hrun.
    destruct Hspec as (-> & Hmore & Hafter).
    rewrite length_app in Hlen.
    apply Forall_app in Hrest_nl as [Hmore_nl Hafter_nl].
    assert (Hplain : plain_lines (line :: more ++ after) = plain_lines after).
    { apply (plain_lines_tsv (line :: more) after). by constructor. }
    destruct (should_convert_block_cases line more)
      as [Hconv | (Hconv & -> & Hcount)].
    + assert (Htab : Exists (fun l => Py.contains Py.tab l = true)
                       (line :: more)).
      { apply Exists_cons_hd. by rewrite <- is_tsv_row_contains. }
      destruct (convert_tab_free _ Htab) as (md_block & Hmd & Hfree).
      rewrite (scan_table r line _ acc more after md_block Hrow Hrun Hconv Hmd).
      destruct (table_append acc after md_block)
        as (pre & post & -> & Hpre & Hpost).
      set (Y := pre ++ Py.split Py.newline md_block ++ post).
      assert (HYne : Y <> []).
      { unfold Y. pose proof (split_not_nil Py.newline md_block).
        destruct pre; [|done]. by destruct (Py.split Py.newline md_block). }
      assert (HYtab : Forall (fun l => _is_tsv_row l = false) Y).
      { unfold Y. rewrite !Forall_app. split; [|split].
        - destruct Hpre as [-> | ->]; by repeat constructor.
        - eapply Forall_impl; [by apply split_keeps_free|].
          intros l Hl. simpl in Hl. by rewrite is_tsv_row_contains.
        - destruct Hpost as [-> | ->]; by repeat constructor. }
      assert (HYnl : Forall (fun l => Py.contains Py.newline l = false) Y).
      { unfold Y. rewrite !Forall_app. split; [|split].
        - destruct Hpre as [-> | ->]; by repeat constructor.
        - apply split_pieces_free.
        - destruct Hpost as [-> | ->]; by repeat constructor. }
      destruct (IH after (acc ++ Y)) as (added & Hscan & Hset & Hnl' & _ & Hsub).
      * lia.
      * apply settled_app; [done | by apply settled_plain |].
        intros a _ _. destruct Y as [|y Y']; [done|].
        by inversion HYtab.
      * intros a Ha Hrow_a.
        apply (last_app_nonempty acc Y a HYne) in Ha.
        eapply Forall_forall in HYtab; [|exact Ha]. congruence.
      * done.
      * exists (Y ++ added). rewrite app_assoc.
        split; [exact Hscan|]. split; [exact Hset|]. split; [|split].
        -- intros Hacc_nl. apply Hnl'. apply Forall_app. by split.
        -- intros _. by destruct Y.
        -- rewrite Hplain. by apply sublist_inserts_l.
    + simpl in Hlen.
      rewrite (scan_keep r line _ acc [] after Hrow Hrun Hconv).
      destruct (IH after (acc ++ [line]))
        as (added & Hscan & Hset & Hnl' & _ & Hsub).
      * lia.
      * apply settled_app; [done| |].
        -- cbn [settled]. by rewrite Hrow, Hcount.
        -- intros a Ha Hrow_a. specialize (Hlast a Ha Hrow_a). simpl in Hlast.
           congruence.
      * intros a Ha _. rewrite last_snoc in Ha. by injection Ha as <-.
      * done.
      * exists (line :: added). rewrite (cons_middle line acc added), app_assoc.
        split; [exact Hscan|]. split; [exact Hset|]. split; [|split].
        -- intros Hacc_nl. apply Hnl'. apply Forall_app. split; [done|].
           by repeat constructor.
        -- done.
        -- rewrite Hplain. by apply sublist_cons.
  - rewrite (scan_plain r line rest acc Hrow).
    destruct (IH rest (acc ++ [line]))
      as (added & Hscan & Hset & Hnl' & _ & Hsub).
    + lia.
    + apply settled_app; [done| |].
      * cbn [settled]. by rewrite Hrow.
      * intros a _ _. done.
    + intros a Ha Hrow_a. rewrite last_snoc in Ha. injection Ha as <-.
      congruence.
    + done.
    + exists (line :: added). rewrite (cons_middle line acc added), app_assoc.
      split; [exact Hscan|]. split; [exact Hset|]. split; [|split].
      * intros Hacc_nl. apply Hnl'. apply Forall_app. split; [done|].
        by repeat constructor.
      * done.
      * unfold plain_lines in *. rewrite filter_cons_True by done.
        by apply sublist_skip.
Qed.

Lemma scan_settled (rounds : nat) (lines acc : list string) :
  settled lines = true -> length lines <= rounds ->
  scan rounds lines acc = Some (acc ++ lines).
Proof.
  revert rounds acc. induction lines as [|line rest IH];
    intros rounds acc Hset Hlen.
  { destruct rounds; by rewrite app_nil_r. }
  destruct rounds as [|r]; [simpl in Hlen; lia|]. simpl in Hlen.
  cbn [settled] in Hset. apply andb_true_iff in Hset as [Hline Hrest].
  rewrite (cons_middle line acc rest), app_assoc.
  destruct (_is_tsv_row line) eqn:Hrow.
  - apply andb_true_iff in Hline as [Hcount Hnext].
    apply negb_true_iff in Hcount.
    assert (Hrun : tsv_run rest = ([], rest)).
    { destruct rest as [|next rest']; [done|]. simpl.
      apply negb_true_iff in Hnext. by rewrite Hnext. }
    rewrite (scan_keep r line rest acc [] rest Hrow Hrun).
    + apply IH; [done | lia].
    + unfold _should_convert_block. simpl. rewrite split_length.
      destruct (Py.count Py.tab line) as [|[|n]]; done.
  - rewrite (scan_plain r line rest acc Hrow). apply IH; [done | lia].
Qed.

Lemma detect_scanned (text : string) :
  Str.truthy text = true -> Py.contains Py.tab text = true ->
  exists result_lines,
    detect_and_format_tables text = Some (Str.join nl result_lines)
    /\ settled result_lines = true
    /\ Forall (fun l => Py.contains Py.newline l = false) result_lines
    /\ result_lines <> []
    /\ plain_lines (Py.split Py.newline text) `sublist_of` result_lines.
Proof.
  intros Htext Htab. unfold detect_and_format_tables.
  rewrite Htext, Htab. simpl.
  destruct (scan_result (length (Py.split Py.newline text))
              (Py.split Py.newline text) [])
    as (added & Hscan & Hset & Hnl & Hne & Hsub); try done.
  { apply split_pieces_free. }
  rewrite Hscan. simpl. exists added. split; [done|]. split; [done|].
  split; [by apply Hnl|]. split; [|done]. apply Hne, split_not_nil.
Qed.

(** X16.  [detect_and_format_tables] returns a text for every input (no
    index is ever out of range and the loop ends within its rounds), and
    keeps non-tabular content: the lines of the input that are not TSV
    rows are lines of the result, in the same order. *)
Theorem detect_and_format_tables_keeps_plain_lines (text : string) :
  exists out,
    detect_and_format_tables text = Some out
    /\ plain_lines (Py.split Py.newline text)
       `sublist_of` Py.split Py.newline out.
Proof.
  destruct (Str.truthy text) eqn:Htext;
    [destruct (Py.contains Py.tab text) eqn:Htab|].
  - destruct (detect_scanned text Htext Htab)
      as (R & Hdet & _ & Hnl & Hne & Hsub).
    exists (Str.join nl R). split; [done|].
    unfold nl. by rewrite split_join.
  - exists text. unfold detect_and_format_tables. rewrite Htext, Htab.
    split; [done|]. apply sublist_filter.
  - exists text. unfold detect_and_format_tables. rewrite Htext.
    split; [done|]. apply sublist_filter.
Qed.

Lemma detect_settled (text : string) :
  settled (Py.split Py.newline text) = true ->
  detect_and_format_tables text = Some text.
Proof.
  intros Hset. unfold detect_and_format_tables.
  destruct (negb (Str.truthy text) || negb (Py.contains Py.tab text));
    [done|].
  rewrite (scan_settled _ _ [] Hset) by done. simpl.
  unfold nl. by rewrite join_split.
Qed.

(** X17.  A text in which every TSV row stands alone and has exactly two
    columns is returned unchanged: no block is converted and splitting and
    joining the lines gives the text back. *)
Theorem detect_and_format_tables_leaves_settled_text (text : string)
    (Hset : settled (Py.split Py.newline text) = true) :
  detect_and_format_tables text = Some text.
Proof. by apply detect_settled. Qed.

(** X18.  Formatting is idempotent: formatting an already formatted text
    returns it unchanged, so the tick may format the same message again
    and again. *)
Theorem detect_and_format_tables_idempotent (text out : string)
    (Hout : detect_and_format_tables text = Some out) :
  detect_and_format_tables out = Some out.
Proof.
  destruct (Str.truthy text) eqn:Htext;
    [destruct (Py.contains Py.tab text) eqn:Htab|].
  - destruct (detect_scanned text Htext Htab)
      as (R & Hdet & Hset & Hnl & Hne & _).
    rewrite Hdet in Hout. injection Hout as <-.
    apply detect_settled. unfold nl. by rewrite split_join.
  - unfold detect_and_format_tables in Hout. rewrite Htext, Htab in Hout.
    injection Hout as <-. unfold detect_and_format_tables.
    by rewrite Htext, Htab.
  - unfold detect_and_format_tables in Hout. rewrite Htext in Hout.
    injection Hout as <-. unfold detect_and_format_tables.
    by rewrite Htext.
Qed.

(** ** Instances for the table formatter *)

Lemma convert_block_is_rectangular_witness :
  let tab := String Py.tab EmptyString in
  let block := ["h1" +:+ tab +:+ "h2" +:+ tab +:+ "h3"; "1" +:+ tab +:+ "2"] in
  Exists (fun line => Py.contains Py.tab line = true) block
  /\ _convert_tsv_block_to_markdown block
     = Some (Str.join nl ["| h1 | h2 | h3 |"; "| --- | --- | --- |";
                          "| 1 | 2 |  |"])
  /\ Py.contains Py.tab
       (Str.join nl ["| h1 | h2 | h3 |"; "| --- | --- | --- |";
                     "| 1 | 2 |  |"]) = false.
Proof.
  intros tab block.
  assert (Htab : Exists (fun line => Py.contains Py.tab line = true) block)
    by (by apply Exists_cons_hd).
  destruct (convert_block_is_rectangular block Htab)
    as (header & body & out & Hnorm & Hconv & Hout & _ & _ & _ & Hfree).
  split; [exact Htab|].
  assert (Hval : out = Str.join nl ["| h1 | h2 | h3 |"; "| --- | --- | --- |";
                                    "| 1 | 2 |  |"]).
  { vm_compute in Hconv. by injection Hconv as <-. }
  rewrite <- Hval. by split.
Defined.

Lemma detect_and_format_tables_leaves_settled_text_witness :
  let text := "total" +:+ String Py.tab "42" +:+ nl +:+ "done" in
  settled (Py.split Py.newline text) = true
  /\ detect_and_format_tables text = Some text.
Proof.
  intros text.
  assert (Hset : settled (Py.split Py.newline text) = true) by reflexivity.
  split; [exact Hset|].
  exact (detect_and_format_tables_leaves_settled_text text Hset).
Defined.

Lemma detect_and_format_tables_idempotent_witness :
  let tab := String Py.tab EmptyString in
  let text := "intro" +:+ nl +:+ "h1" +:+ tab +:+ "h2" +:+ nl
              +:+ "1" +:+ tab +:+ "2" +:+ nl +:+ "outro" in
  let out := Str.join nl ["intro"; ""; "| h1 | h2 |"; "| --- | --- |";
                          "| 1 | 2 |"; ""; "outro"] in
  detect_and_format_tables text = Some out
  /\ detect_and_format_tables out = Some out.
Proof.
  intros tab text out.
  assert (Hout : detect_and_format_tables text = Some out) by reflexivity.
  split; [exact Hout|].
  exact (detect_and_format_tables_idempotent text out Hout).
Defined.

(** * Properties of the token counter *)

Section TokenCounterProperties.

Variable estimate : string -> nat.

Lemma count_fold_shift (messages : list ChatMessage) (a : nat) :
  fold_left
    (fun total_tokens message =>
       if content_truthy message
       then total_tokens + estimate (default EmptyString (content message))
            + 10
       else total_tokens)
    messages a
  = a + fold_left
          (fun total_tokens message =>
             if content_truthy message
             then total_tokens
                  + estimate (default EmptyString (content message)) + 10
             else total_tokens)
          messages 0.
Proof.
  revert a. induction messages as [|m ms IH]; intros a; simpl; [lia|].
  rewrite IH. rewrite (IH (if content_truthy m then _ else _)).
  destruct (content_truthy m); lia.
Qed.

Lemma count_cons (system_prompt : string) (m : ChatMessage)
    (ms : list ChatMessage) :
  count_total_tokens estimate system_prompt (m :: ms)
  = message_cost estimate m + count_total_tokens estimate system_prompt ms.
Proof.
  unfold count_total_tokens, message_cost. simpl.
  rewrite count_fold_shift. symmetry. rewrite count_fold_shift.
  destruct (content_truthy m), (Str.truthy system_prompt); lia.
Qed.

Lemma count_app (system_prompt : string) (a b : list ChatMessage) :
  count_total_tokens estimate system_prompt (a ++ b)
  = count_total_tokens estimate system_prompt a
    + count_total_tokens estimate EmptyString b.
Proof.
  induction a as [|m a IH].
  - unfold count_total_tokens. simpl. apply count_fold_shift.
  - rewrite <- app_comm_cons, !count_cons, IH. lia.
Qed.

Lemma count_suffix_le (system_prompt : string) (dropped kept : list ChatMessage) :
  count_total_tokens estimate system_prompt kept
  <= count_total_tokens estimate system_prompt (dropped ++ kept).
Proof.
  induction dropped as [|m dropped IH]; [done|].
  rewrite <- app_comm_cons, count_cons. lia.
Qed.

Lemma trim_spec (messages : list ChatMessage) (system_prompt : string)
    (max_tokens : Z) :
  let kept := trim_messages_to_fit estimate messages system_prompt max_tokens in
  (exists dropped, messages = dropped ++ kept)
  /\ (kept <> [] ->
      (Z.of_nat (count_total_tokens estimate system_prompt kept)
       <= max_tokens)%Z)
  /\ (forall dropped longer,
        messages = dropped ++ longer -> length kept < length longer ->
        (max_tokens
         < Z.of_nat (count_total_tokens estimate system_prompt longer))%Z).
Proof.
  induction messages as [|m later IH].
  - simpl. split; [by exists []|]. split; [done|].
    intros dropped longer Heq Hlen.
    symmetry in Heq. apply app_eq_nil in Heq as [_ ->]. simpl in Hlen. lia.
  - cbn [trim_messages_to_fit]. cbv zeta.
    destruct (Z.leb_spec
                (Z.of_nat (count_total_tokens estimate system_prompt
                             (m :: later))) max_tokens) as [Hfit | Hover].
    + split; [by exists []|]. split; [done|].
      intros dropped longer Heq Hlen.
      apply (f_equal length) in Heq. rewrite length_app in Heq. lia.
    + destruct IH as ((dropped & Hdropped) & Hfits & Hlongest).
      split; [|split; [done|]].
      * exists (m :: dropped). by rewrite Hdropped at 1.
      * intros d longer Heq Hlen. destruct d as [|x d].
        -- simpl in Heq. by subst longer.
        -- injection Heq as _ Heq. by eapply Hlongest.
Qed.

Lemma trim_dicts_eq (messages : list ChatMessage) (max_tokens : Z) :
  trim_message_dicts_to_fit estimate messages max_tokens
  = trim_messages_to_fit estimate messages EmptyString max_tokens.
Proof.
  induction messages as [|m later IH]; [done|].
  cbn [trim_message_dicts_to_fit trim_messages_to_fit]. cbv zeta.
  unfold count_total_tokens_from_dicts.
  destruct (_ <=? _)%Z; [done|]. apply IH.
Qed.

End TokenCounterProperties.

(** X19.  Counting is additive: the count of a message list is the prompt's
    estimate (when the prompt is not empty) plus, for each message with
    non-empty content, its estimate and 10; so dropping messages from the
    front never raises the count. *)
Theorem count_total_tokens_additive (estimate : string -> nat)
    (system_prompt : string) (dropped kept : list ChatMessage) :
  count_total_tokens estimate system_prompt (dropped ++ kept)
  = (if Str.truthy system_prompt then estimate system_prompt else 0)
    + sum_list_with (message_cost estimate) dropped
    + sum_list_with (message_cost estimate) kept
  /\ count_total_tokens estimate system_prompt kept
     <= count_total_tokens estimate system_prompt (dropped ++ kept)
  /\ count_total_tokens_from_dicts estimate kept system_prompt
     = count_total_tokens estimate system_prompt kept.
Proof.
  assert (Hsum : forall sp ms,
             count_total_tokens estimate sp ms
             = (if Str.truthy sp then estimate sp else 0)
               + sum_list_with (message_cost estimate) ms).
  { intros sp ms. induction ms as [|m ms IH].
    - unfold count_total_tokens. simpl. destruct (Str.truthy sp); lia.
    - rewrite count_cons, IH. simpl. lia. }
  split; [|split; [apply count_suffix_le | done]].
  rewrite Hsum, sum_list_with_app. lia.
Qed.

(** X20.  Trimming keeps the longest run of most recent messages that fits:
    the result is the input with messages dropped from the front only; if
    it is not empty its count is within [max_tokens]; and every longer
    tail of the input exceeds [max_tokens].  The result is empty exactly
    when no non-empty tail fits, even if the prompt alone is over the
    limit.  The dictionary variant is the same function with an empty
    prompt. *)
Theorem trim_keeps_longest_fitting_tail (estimate : string -> nat)
    (messages : list ChatMessage) (system_prompt : string) (max_tokens : Z) :
  let kept := trim_messages_to_fit estimate messages system_prompt max_tokens in
  (exists dropped, messages = dropped ++ kept)
  /\ (kept <> [] ->
      (Z.of_nat (count_total_tokens estimate system_prompt kept)
       <= max_tokens)%Z)
  /\ (forall dropped longer,
        messages = dropped ++ longer -> length kept < length longer ->
        (max_tokens
         < Z.of_nat (count_total_tokens estimate system_prompt longer))%Z)
  /\ trim_message_dicts_to_fit estimate messages max_tokens
     = trim_messages_to_fit estimate messages EmptyString max_tokens.
Proof.
  intros kept.
  destruct (trim_spec estimate messages system_prompt max_tokens)
    as (H1 & H2 & H3).
  split; [exact H1|]. split; [exact H2|]. split; [exact H3|].
  apply trim_dicts_eq.
Qed.

Lemma trim_keeps_longest_fitting_tail_witness :
  let estimate := fun text : string => String.length text in
  let m1 := mkChatMessage "user" (Some "0123456789") in
  let m2 := mkChatMessage "assistant" None in
  let m3 := mkChatMessage "user" (Some "abcde") in
  let kept := trim_messages_to_fit estimate [m1; m2; m3] "sys" 20 in
  kept = [m2; m3]
  /\ kept <> []
  /\ (Z.of_nat (count_total_tokens estimate "sys" kept) <= 20)%Z
  /\ [m1; m2; m3] = [] ++ [m1; m2; m3]
  /\ length kept < length [m1; m2; m3]
  /\ (20 < Z.of_nat (count_total_tokens estimate "sys" [m1; m2; m3]))%Z.
Proof.
  intros estimate m1 m2 m3 kept.
  destruct (trim_keeps_longest_fitting_tail estimate [m1; m2; m3] "sys" 20)
    as (_ & H2 & H3 & _).
  assert (Hk : kept = [m2; m3]) by reflexivity.
  assert (Hne : kept <> []) by (by rewrite Hk).
  assert (Hlen : length kept < length [m1; m2; m3]) by (rewrite Hk; simpl; lia).
  split; [exact Hk|]. split; [exact Hne|]. split; [exact (H2 Hne)|].
  split; [reflexivity|]. split; [exact Hlen|].
  exact (H3 [] [m1; m2; m3] eq_refl Hlen).
Defined.
